(** * parsedvd / IsoFileCore: chapter extraction, title splitting, index
      correction, joining and chapter-range resolution.

    Shallow embedding of [src/parsedvd/IsoFileCore.py].

    - Python integers are [Z]; lengths are [nat] and are injected with
      [Z.of_nat] where the source mixes them with integers.
    - Raised exceptions are values of [exn]; fallible code returns [result].
    - A [vs.VideoNode] is modelled by the list of its frames. Slicing takes
      the bounds of a Python slice with step 1 ([slice.indices]) and trims
      the clip to them; a range that holds no frame is refused with
      [vapoursynth.Error]. [+] is concatenation.
    - The chapter lists are Python [list] objects that the source mutates in
      place and shares between [split_chapters] and [joined_chapters]; they
      live in a store ([heap]) and are referred to by location.
    - The collaborators (indexer, IFO decoder, mount provider) are
      represented by their answers: the directory listing with the decoded
      program chains, the frame-rate table, the index metadata and the
      decoded clip. [get_ifo_info] is memoised by the source; it is modelled
      as the function of the listing that the first call computes. *)

From Stdlib Require Import Ascii.
From stdpp Require Import base numbers list strings.

Open Scope Z_scope.

(** ** Exceptions and the error monad *)

Inductive exn : Type :=
  | IndexError
  | KeyError
  | ValueError (msg : string)
  | SystemError
  | VSError.

Inductive result (A : Type) : Type :=
  | Ok (a : A)
  | Raise (e : exn).
Arguments Ok {A} a.
Arguments Raise {A} e.

Definition rbind {A B} (m : result A) (k : A -> result B) : result B :=
  match m with
  | Ok a => k a
  | Raise e => Raise e
  end.

Notation "'let?' x ':=' m 'in' k" := (rbind m (fun x => k))
  (at level 10, x pattern, m at level 100, k at level 200).

(** ** Python sequence primitives *)

(** [l[i]] for an integer [i]: negative indices count from the end, anything
    outside [-len, len) raises [IndexError]. *)
Definition py_getitem {A} (l : list A) (i : Z) : result A :=
  let n := Z.of_nat (length l) in
  let k := if i <? 0 then i + n else i in
  if (0 <=? k) && (k <? n) then
    match l !! Z.to_nat k with
    | Some x => Ok x
    | None => Raise IndexError
    end
  else Raise IndexError.

(** [l[i] = x], same index discipline. *)
Definition py_setitem {A} (l : list A) (i : Z) (x : A) : result (list A) :=
  let n := Z.of_nat (length l) in
  let k := if i <? 0 then i + n else i in
  if (0 <=? k) && (k <? n) then Ok (<[Z.to_nat k := x]> l)
  else Raise IndexError.

(** One bound of a slice with step 1, as [slice.indices(len)] computes it;
    [d] is the value used when the bound is omitted. *)
Definition slice_bound (n d : Z) (b : option Z) : Z :=
  match b with
  | None => d
  | Some x => if x <? 0 then Z.max (x + n) 0 else Z.min x n
  end.

(** [l[start:stop]]. *)
Definition py_slice {A} (l : list A) (start stop : option Z) : list A :=
  let n := Z.of_nat (length l) in
  let a := slice_bound n 0 start in
  let b := slice_bound n n stop in
  take (Z.to_nat (b - a)) (drop (Z.to_nat a) l).

(** [clip[start:stop]] on a [vs.VideoNode]: the frames of the Python slice,
    and [vapoursynth.Error] when there is none ([std.Trim] does not build a
    clip without frames). *)
Definition vs_slice {A} (clip : list A) (start stop : option Z) : result (list A) :=
  match py_slice clip start stop with
  | [] => Raise VSError
  | frames => Ok frames
  end.

(** A list comprehension whose element expression can raise. *)
Fixpoint rmap {A B} (f : A -> result B) (l : list A) : result (list B) :=
  match l with
  | [] => Ok []
  | x :: l' =>
      let? y := f x in
      let? ys := rmap f l' in
      Ok (y :: ys)
  end.

(** [range(a, b)]. *)
Definition py_range (a b : Z) : list Z :=
  map (fun k => a + Z.of_nat k) (seq 0 (Z.to_nat (b - a))).

(** [itertools.accumulate] with the default addition. *)
Fixpoint accumulate_from (acc : Z) (l : list Z) : list Z :=
  match l with
  | [] => []
  | x :: l' => (acc + x) :: accumulate_from (acc + x) l'
  end.

Definition accumulate (l : list Z) : list Z :=
  match l with
  | [] => []
  | x :: l' => x :: accumulate_from x l'
  end.

(** ** IFO records (decoded by the collaborator library) *)

Record PlaybackTime : Type := {
  fps : Z;
  hours : Z;
  minutes : Z;
  seconds : Z;
  frames : Z
}.

Record ProgramChain : Type := {
  playback_times : list PlaybackTime
}.

Record Fraction : Type := {
  numerator : Z;
  denominator : Z
}.

(** One entry of [sorted(mount_path.glob('*.[iI][fF][oO]'))] together with
    what [vts_ifo.load_vts_pgci] decodes from it. *)
Record IfoFile : Type := {
  stem : string;
  program_chains : list ProgramChain
}.

Record IFOFileInfo : Type := {
  chapters : list (list Z);
  ifo_fps : Fraction;
  m_ifos : bool
}.

Definition vfr_error : exn := ValueError "IsoFile: No VFR allowed!".

(** ** ChapterExtractor: [get_ifo_info] *)

Section ChapterExtractor.

(** [vts_ifo.FRAMERATE], the frame-rate table of the collaborator library;
    a code without entry makes the lookup raise [KeyError]. *)
Variable FRAMERATE : Z -> option Fraction.

Definition playback_frames (raw_fps : Z) (pb_time : PlaybackTime) : Z :=
  frames pb_time
  + (hours pb_time * 3600 + minutes pb_time * 60 + seconds pb_time) * raw_fps.

(** Body of the loop [for prog in program_chains] (lines 143-155); the
    loop state is the pair of [fps] and [split_chapters]. *)
Definition chain_step (st : Fraction * list (list Z)) (prog : ProgramChain)
  : result (Fraction * list (list Z)) :=
  let dvd_fps_s := map fps (playback_times prog) in
  if forallb (fun dvd_fps => bool_decide (dvd_fps_s !! 0%nat = Some dvd_fps))
             dvd_fps_s
  then
    let? code := py_getitem dvd_fps_s 0 in
    match FRAMERATE code with
    | None => Raise KeyError
    | Some fps' =>
        let raw_fps := if numerator fps' =? 30000 then 30 else 25 in
        Ok (fps',
            snd st ++ [0 :: map (playback_frames raw_fps) (playback_times prog)])
    end
  else Raise vfr_error.

Fixpoint chain_loop (st : Fraction * list (list Z)) (progs : list ProgramChain)
  : result (Fraction * list (list Z)) :=
  match progs with
  | [] => Ok st
  | prog :: progs' =>
      let? st' := chain_step st prog in
      chain_loop st' progs'
  end.

(** The chains the loop walks: with several IFO files the first chain of
    each file is dropped. *)
Definition collect_program_chains (ifo_files : list IfoFile) : list ProgramChain :=
  let m := bool_decide (1 < length ifo_files)%nat in
  concat (map (fun f => py_slice (program_chains f)
                          (Some (if m then 1 else 0)) None) ifo_files).

Definition get_ifo_info (listing : list IfoFile) : result IFOFileInfo :=
  let ifo_files := filter (fun f => stem f <> "VIDEO_TS") listing in
  let m := bool_decide (1 < length ifo_files)%nat in
  let program_chains := collect_program_chains ifo_files in
  let? st := chain_loop ({| numerator := 30000; denominator := 1001 |}, [])
                        program_chains in
  Ok {| chapters := map accumulate (snd st);
        ifo_fps := fst st;
        m_ifos := m |}.

End ChapterExtractor.

(** ** The store of chapter lists and the output stream *)

Definition loc : Type := nat.

(** [heap] holds the Python [list] objects with integer entries, a location
    is an index into it; [stdout] collects what [print] writes. *)
Record world : Type := {
  heap : list (list Z);
  stdout : list string
}.

Definition M (A : Type) : Type := world -> result (A * world).

Definition mret {A} (a : A) : M A := fun w => Ok (a, w).

Definition mbind {A B} (m : M A) (k : A -> M B) : M B :=
  fun w => match m w with
           | Ok (a, w') => k a w'
           | Raise e => Raise e
           end.

Notation "'let!' x ':=' m 'in' k" := (mbind m (fun x => k))
  (at level 10, x pattern, m at level 100, k at level 200).

Definition lift {A} (r : result A) : M A :=
  fun w => match r with
           | Ok a => Ok (a, w)
           | Raise e => Raise e
           end.

(** A new list object. *)
Definition alloc (row : list Z) : M loc :=
  fun w => Ok (length (heap w), {| heap := heap w ++ [row]; stdout := stdout w |}).

(** Reading a list object. Every location the program holds was returned by
    [alloc], so the second branch is taken by no run of the program; it is
    kept apart from the exceptions the source can raise. *)
Definition deref (l : loc) : M (list Z) :=
  fun w => match heap w !! l with
           | Some row => Ok (row, w)
           | None => Raise SystemError
           end.

(** In-place replacement of the contents of a list object. *)
Definition store (l : loc) (row : list Z) : M unit :=
  fun w => Ok (tt, {| heap := <[l := row]> (heap w); stdout := stdout w |}).

Definition print (msg : string) : M unit :=
  fun w => Ok (tt, {| heap := heap w; stdout := stdout w ++ [msg] |}).

Fixpoint mapM {A B} (f : A -> M B) (l : list A) : M (list B) :=
  match l with
  | [] => mret []
  | x :: l' =>
      let! y := f x in
      let! ys := mapM f l' in
      mret (y :: ys)
  end.

(** ** Index metadata (answer of the indexer collaborator) *)

Record IndexVideo : Type := {
  size : Z
}.

(** Only the number of [frame_data] records is consulted. *)
Record IndexFileInfo : Type := {
  videos : list IndexVideo;
  frame_data : list unit
}.

Definition broken_chapters_warning : string :=
  String "010"%char (String "009"%char
    ("IsoFile: The chapters are broken, last few chapters "
     +:+ "and negative indices will probably give out an error. "
     +:+ "You can set safe_indices = True and trim down the chapters."
     +:+ String "010"%char EmptyString)).

(** ** ChapterIndexCorrector: the loop nest of lines 217-239

    The walk only reads [self.split_chapters] and only writes the lists it
    created itself at line 218, so it is a function of the contents [old] of
    [self.split_chapters] and returns the contents of the local
    [split_chapters]. *)

Section Corrector.

Variable old : list (list Z).
Variable num_frames dvd_menu_length : Z.

(** [split_chapters[i].append(x)] *)
Definition append_at (new : list (list Z)) (i : nat) (x : Z) : list (list Z) :=
  alter (fun row => row ++ [x]) i new.

(** Lines 229-233. The indices [k] of the range lie in [0, len). *)
Definition collapse_tail (new : list (list Z)) (i : nat) : result (list (list Z)) :=
  let new1 :=
    foldl (fun nw k => <[Z.to_nat k := [0; 1]]> nw) new
          (py_range (Z.of_nat i + 1)
                    (Z.of_nat (length old) - (if 0 <? dvd_menu_length then 1 else 0))) in
  if negb (dvd_menu_length =? 0) then
    let? menu := py_getitem old (-1) in
    py_setitem new1 (-1) menu
  else Ok new1.

(** The loop over [j]; the flag tells whether it was left by [break]. *)
Fixpoint title_loop (i : nat) (offset : Z) (row : list Z) (new : list (list Z))
  : result (list (list Z) * bool) :=
  match row with
  | [] => Ok (new, false)
  | b :: row' =>
      if b + offset <? num_frames then
        title_loop i offset row' (append_at new i b)
      else
        let new1 :=
          append_at new i
            (num_frames - dvd_menu_length - Z.of_nat (length old) + Z.of_nat i + 2) in
        let? new2 := collapse_tail new1 i in
        Ok (new2, true)
  end.

(** The loop over [i]. *)
Fixpoint titles_loop (idxs : list nat) (offset : Z) (new : list (list Z))
  : result (list (list Z)) :=
  match idxs with
  | [] => Ok new
  | i :: idxs' =>
      let? row := py_getitem old (Z.of_nat i) in
      let? r := title_loop i offset row new in
      if snd r then Ok (fst r)
      else
        let? last := py_getitem row (-1) in
        titles_loop idxs' (offset + last) (fst r)
  end.

Definition corrected_chapters : result (list (list Z)) :=
  titles_loop (seq 0 (length old)) 0 (replicate (length old) []).

End Corrector.

(** ** TitleSplitter, TitleJoiner, [split_titles] and [get_title] *)

(** The four attributes [split_titles] assigns and returns. *)
Record Titles (Frame : Type) : Type := {
  split_clips : list (list Frame);
  split_chapters : list loc;
  joined_clip : list Frame;
  joined_chapters : loc
}.
Arguments split_clips {Frame} _.
Arguments split_chapters {Frame} _.
Arguments joined_clip {Frame} _.
Arguments joined_chapters {Frame} _.

(** The [chapters] argument of [get_title]. *)
Local Unset Elimination Schemes.
Inductive Query : Type :=
  | QNone
  | QInt (c : Z)
  | QTuple (start stop : option Z)
  | QList (l : list Query).

Inductive TitleResult (Frame : Type) : Type :=
  | TClip (clip : list Frame)
  | TList (l : list (TitleResult Frame)).
Arguments TClip {Frame} clip.
Arguments TList {Frame} l.
Local Set Elimination Schemes.

Section IsoFileCore.

Context {Frame : Type}.

(** [__split_chapters_clips], lines 104-122; [clip] is [self.__clip]. *)
Definition split_chapters_clips (clip : list Frame)
    (split_chapters : list loc) (dvd_menu_length : Z)
  : M (list loc * list (list Frame)) :=
  let! lasts := mapM (fun frame => let! row := deref frame in
                                   lift (py_getitem row (-1))) split_chapters in
  let durations := accumulate (0 :: lasts) in
  let! clip' := lift (vs_slice clip (Some dvd_menu_length) None) in
  let! clips :=
    lift (rmap (fun se => vs_slice clip' (Some (fst se)) (Some (snd se)))
               (zip (py_slice durations None (Some (-1)))
                    (py_slice durations (Some 1) None))) in
  if negb (dvd_menu_length =? 0) then
    let! menu_clip := lift (vs_slice clip None (Some dvd_menu_length)) in
    let! menu := alloc [0; dvd_menu_length] in
    mret (split_chapters ++ [menu], clips ++ [menu_clip])
  else mret (split_chapters, clips).

(** [__gen_joined_clip], lines 184-192. *)
Definition gen_joined_clip (split_clips : list (list Frame)) : result (list Frame) :=
  let? joined_clip := py_getitem split_clips 0 in
  if bool_decide (1 < length split_clips)%nat then
    Ok (foldl (fun joined cclip => joined ++ cclip) joined_clip
              (py_slice split_clips (Some 1) None))
  else Ok joined_clip.

(** One round of the loop of [__gen_joined_chapts]:
    [joined_chapters += [r + joined_chapters[-1] for r in rrange if r != 0]].
    The comprehension is built first, then the object at [joined_chapters]
    is extended in place. *)
Definition extend_joined (joined_chapters rrange : loc) : M unit :=
  let! rr := deref rrange in
  let! ext := mapM (fun r => let! jl := deref joined_chapters in
                             let! last := lift (py_getitem jl (-1)) in
                             mret (r + last))
                   (filter (fun r => r <> 0) rr) in
  let! jl := deref joined_chapters in
  store joined_chapters (jl ++ ext).

(** [__gen_joined_chapts], lines 194-204: [joined_chapters] is the object
    [spl_chapts[0]] itself, not a copy. *)
Definition gen_joined_chapts (spl_chapts : list loc) : M loc :=
  let! joined_chapters := lift (py_getitem spl_chapts 0) in
  if bool_decide (1 < length spl_chapts)%nat then
    let! _ := mapM (extend_joined joined_chapters)
                   (py_slice spl_chapts (Some 1) None) in
    mret joined_chapters
  else mret joined_chapters.

Definition dvd_menu_length_of (idx_info : IndexFileInfo) : result Z :=
  let? video := py_getitem (videos idx_info) 0 in
  Ok (if Z.shiftl 2 12 <? size video
      then Z.of_nat (length (frame_data idx_info)) else 0).

(** Lines 173-207 of [split_titles]. The list objects of
    [ifo_info.chapters] are the ones [get_ifo_info] built; they enter the
    store here. *)
Definition first_pass (clip : list Frame) (ifo_info : IFOFileInfo)
    (idx_info : IndexFileInfo) : M (Titles Frame * Z) :=
  let! chapters := mapM alloc (chapters ifo_info) in
  let! dvd_menu_length := lift (dvd_menu_length_of idx_info) in
  let! sc := split_chapters_clips clip chapters dvd_menu_length in
  let! joined_clip := lift (gen_joined_clip (snd sc)) in
  let! joined_chapters := gen_joined_chapts (fst sc) in
  mret ({| split_clips := snd sc; split_chapters := fst sc;
           joined_clip := joined_clip; joined_chapters := joined_chapters |},
        dvd_menu_length).

(** Lines 216-247: the strict branch. The rows of the local
    [split_chapters] are new list objects; the one alias with an old object,
    [split_chapters[-1] = self.split_chapters[-1]], is the entry that
    [split_chapters[:-1]] drops again. *)
Definition correction_pass (clip : list Frame) (t : Titles Frame)
    (dvd_menu_length : Z) : M (Titles Frame) :=
  let! old := mapM deref (split_chapters t) in
  let! new := lift (corrected_chapters old (Z.of_nat (length clip)) dvd_menu_length) in
  let! rows := mapM alloc (if dvd_menu_length =? 0 then new
                           else py_slice new None (Some (-1))) in
  let! sc := split_chapters_clips clip rows dvd_menu_length in
  let! joined_clip := lift (gen_joined_clip (snd sc)) in
  let! joined_chapters := gen_joined_chapts (fst sc) in
  mret {| split_clips := snd sc; split_chapters := fst sc;
          joined_clip := joined_clip; joined_chapters := joined_chapters |}.

(** [self.joined_chapters[-1]] *)
Definition final_boundary (t : Titles Frame) : M Z :=
  let! jl := deref (joined_chapters t) in
  lift (py_getitem jl (-1)).

(** [split_titles], lines 163-249. [clip] is [self.__clip], [ifo_info] and
    [idx_info] are the answers of [get_ifo_info] and of the indexer. *)
Definition split_titles (safe_indices : bool) (clip : list Frame)
    (ifo_info : IFOFileInfo) (idx_info : IndexFileInfo) : M (Titles Frame) :=
  let! tm := first_pass clip ifo_info idx_info in
  let! final := final_boundary (fst tm) in
  if Z.of_nat (length clip) <? final then
    if negb safe_indices then
      let! _ := print broken_chapters_warning in
      mret (fst tm)
    else correction_pass clip (fst tm) (snd tm)
  else mret (fst tm).

(** Lines 260-265 of [get_title]. *)
Definition select_title (h : list (list Z)) (t : Titles Frame)
    (clip_index : option Z) : result (list Z * list Frame) :=
  match clip_index with
  | Some i =>
      let? l := py_getitem (split_chapters t) i in
      let? clip := py_getitem (split_clips t) i in
      match h !! l with
      | Some ranges => Ok (ranges, clip)
      | None => Raise SystemError
      end
  | None =>
      match h !! joined_chapters t with
      | Some ranges => Ok (ranges, joined_clip t)
      | None => Raise SystemError
      end
  end.

(** [return clip[start:end]], lines 286 and 302. *)
Definition trimmed (clip : list Frame) (start stop : Z) : result (TitleResult Frame) :=
  let? frames := vs_slice clip (Some start) (Some stop) in
  Ok (TClip frames).

(** [get_title], lines 251-306, on an instance whose clip and split result
    are present ([t], with the store [h] it refers to). *)
Fixpoint get_title (h : list (list Z)) (t : Titles Frame)
    (clip_index : option Z) (chapters : Query) : result (TitleResult Frame) :=
  let? sel := select_title h t clip_index in
  let ranges := fst sel in
  let clip := snd sel in
  let rlength := Z.of_nat (length ranges) in
  match chapters with
  | QInt chapters =>
      let? start := py_getitem ranges 0 in
      let? stop := py_getitem ranges (-1) in
      if chapters =? rlength - 1 then
        let? start := py_getitem ranges (-2) in
        trimmed clip start stop
      else if chapters =? 0 then
        let? stop := py_getitem ranges 1 in
        trimmed clip start stop
      else if chapters <? 0 then
        let? start := py_getitem ranges (rlength - 1 + chapters) in
        let? stop := py_getitem ranges (rlength + chapters) in
        trimmed clip start stop
      else
        let? start := py_getitem ranges chapters in
        let? stop := py_getitem ranges (chapters + 1) in
        trimmed clip start stop
  | QTuple start stop =>
      let start :=
        match start with
        | None => 0
        | Some start => if start <? 0 then rlength - 1 + start else start
        end in
      let stop :=
        match stop with
        | None => rlength - 1
        | Some stop => if stop <? 0 then rlength - 1 + stop else stop + 1
        end in
      let? first := py_getitem ranges start in
      let? last := py_getitem ranges stop in
      trimmed clip first last
  | QList l =>
      let? rs :=
        (fix each (l : list Query) : result (list (TitleResult Frame)) :=
           match l with
           | [] => Ok []
           | rchap :: l' =>
               let? r := get_title h t clip_index rchap in
               let? rs := each l' in
               Ok (r :: rs)
           end) l in
      Ok (TList rs)
  | QNone => Ok (TClip clip)
  end.

End IsoFileCore.

(** ** Sample inputs *)

Definition empty_world : world := {| heap := []; stdout := [] |}.

Definition ntsc : Fraction := {| numerator := 30000; denominator := 1001 |}.

(** Index metadata of a disc without menu segment ([videos[0].size] is not
    above [2 << 12]) and of one whose menu segment has [n] frames. *)
Definition idx_no_menu : IndexFileInfo :=
  {| videos := [ {| size := 4096 |} ]; frame_data := [] |}.

Definition idx_menu (n : nat) : IndexFileInfo :=
  {| videos := [ {| size := 10000 |} ]; frame_data := replicate n tt |}.

Definition ifo_of (chs : list (list Z)) : IFOFileInfo :=
  {| chapters := chs; ifo_fps := ntsc; m_ifos := false |}.

(** A decoded sequence of [n] frames, each frame named by its position. *)
Definition decoded (n : nat) : list nat := seq 0 n.

(** An instance whose joined result is a 300 frame sequence with chapter
    boundaries [0, 100, 200, 300], and the store it refers to. *)
Definition sample_titles : Titles nat :=
  {| split_clips := [decoded 300]; split_chapters := [0%nat];
     joined_clip := decoded 300; joined_chapters := 0%nat |}.

Definition sample_heap : list (list Z) := [[0; 100; 200; 300]].

(** ** Vocabulary of the statements *)

(** The program chains [get_ifo_info] walks for a directory listing. *)
Definition walked_chains (listing : list IfoFile) : list ProgramChain :=
  collect_program_chains (filter (fun f => stem f <> "VIDEO_TS") listing).

(** The playback times of a chain carry at least two distinct frame-rate
    codes. *)
Definition distinct_rate_codes (prog : ProgramChain) : bool :=
  let codes := map fps (playback_times prog) in
  existsb (fun a => existsb (fun b => negb (a =? b)) codes) codes.

(** A chain the loop body accepts: it has a playback time, one frame-rate
    code throughout, and the code is in the table. *)
Definition accepted_chain (FRAMERATE : Z -> option Fraction) (prog : ProgramChain) : bool :=
  match map fps (playback_times prog) with
  | [] => false
  | code :: codes => forallb (Z.eqb code) codes && bool_decide (is_Some (FRAMERATE code))
  end.

Definition nonneg_time (pb_time : PlaybackTime) : bool :=
  (0 <=? hours pb_time) && (0 <=? minutes pb_time)
  && (0 <=? seconds pb_time) && (0 <=? frames pb_time).

Definition non_decreasing (l : list Z) : Prop :=
  forall (i j : nat) (x y : Z),
    (i <= j)%nat -> l !! i = Some x -> l !! j = Some y -> x <= y.

(** A frame-rate table with the two families of the DVD standard. *)
Definition dvd_framerate (code : Z) : option Fraction :=
  if code =? 1 then Some {| numerator := 25; denominator := 1 |}
  else if code =? 3 then Some ntsc
  else None.

Definition time (code h m s f : Z) : PlaybackTime :=
  {| fps := code; hours := h; minutes := m; seconds := s; frames := f |}.

Definition steady_chain : ProgramChain :=
  {| playback_times := [time 3 0 0 3 10; time 3 0 1 0 0] |}.

Definition mixed_chain : ProgramChain :=
  {| playback_times := [time 3 0 0 3 10; time 1 0 1 0 0] |}.

Definition empty_chain : ProgramChain := {| playback_times := [] |}.

(** A chain whose frame-rate code has no entry in [dvd_framerate]. *)
Definition unknown_rate_chain : ProgramChain :=
  {| playback_times := [time 2 0 0 1 0] |}.

Definition single_ifo (progs : list ProgramChain) : list IfoFile :=
  [ {| stem := "VTS_01_0"; program_chains := progs |} ].

(** [below num_frames offset rows]: the walk of the corrector passes over
    all of [rows] from the running [offset] without meeting a boundary [b]
    with [num_frames <= b + offset]; the result is the offset it reaches. *)
Fixpoint below (num_frames offset : Z) (rows : list (list Z)) : option Z :=
  match rows with
  | [] => Some offset
  | row :: rows' =>
      if forallb (fun b => b + offset <? num_frames) row then
        match last row with
        | Some final => below num_frames (offset + final) rows'
        | None => None
        end
      else None
  end.

(** A valid ChapterBoundaries list: it starts at 0 and never decreases. *)
Definition valid_boundaries (b : list Z) : Prop :=
  b !! 0%nat = Some 0 /\ non_decreasing b.

(** [row[-1]], with 0 for the empty list. *)
Definition last0 (row : list Z) : Z := default 0 (last row).

Definition sumZ (l : list Z) : Z := foldr Z.add 0 l.

(** The contents of the joined list after one more round of
    [__gen_joined_chapts]. *)
Definition merge_step (joined rrange : list Z) : list Z :=
  joined ++ map (fun r => r + last0 joined) (filter (fun r => r <> 0) rrange).

(** The per-title slices of [__split_chapters_clips], from the final
    boundary of every title. *)
Definition title_clips {Frame} (clip : list Frame) (dvd_menu_length : Z)
    (lasts : list Z) : list (list Frame) :=
  let durations := accumulate (0 :: lasts) in
  let clip' := py_slice clip (Some dvd_menu_length) None in
  map (fun se => py_slice clip' (Some (fst se)) (Some (snd se)))
      (zip (py_slice durations None (Some (-1)))
           (py_slice durations (Some 1) None)).

(** The frames of [clip] with index in [[lo, hi)], as a request for them is
    answered: it is refused when the sequence has no frame there. *)
Definition frames_between {Frame} (clip : list Frame) (lo hi : nat)
  : result (TitleResult Frame) :=
  if bool_decide (lo < hi /\ lo < length clip)%nat
  then Ok (TClip (take (hi - lo) (drop lo clip)))
  else Raise VSError.

(** Titles with the frame counts [lasts], laid out one after the other in
    [room] frames: every title has a frame of its own count and starts
    inside the room. *)
Fixpoint titles_fit (room : Z) (lasts : list Z) : bool :=
  match lasts with
  | [] => true
  | d :: lasts' => (0 <? d) && (0 <? room) && titles_fit (room - d) lasts'
  end.

(** The list objects at the locations [ls] of the store [h] hold [rows]. *)
Definition rows_at (h : list (list Z)) (ls : list loc) (rows : list (list Z)) : Prop :=
  Forall2 (fun l row => h !! l = Some row) ls rows.

(** Code that writes nothing to the output stream. *)
Definition silent {A} (m : M A) : Prop :=
  forall w a w', m w = Ok (a, w') -> stdout w' = stdout w.


(** The exception the loop body of [get_ifo_info] raises on a chain it does
    not accept. *)
Definition rejection (prog : ProgramChain) : exn :=
  match playback_times prog with
  | [] => IndexError
  | _ :: _ => if distinct_rate_codes prog then vfr_error else KeyError
  end.

(** Two directory entries with the same name whose decoded program chains
    agree from the second chain on. *)
Definition same_titles (f g : IfoFile) : Prop :=
  stem f = stem g /\ drop 1 (program_chains f) = drop 1 (program_chains g).

(** ** [_mount_folder_path]

    An absolute path is the list of its components below the root: [name]
    is the last component (the empty string for the root), [parent] drops
    it (the root is its own parent), [p / s] appends a component. *)

Definition path_name (p : list string) : string := default "" (last p).

Definition path_parent (p : list string) : list string := take (length p - 1) p.

Section MountFolder.

(** [str.upper] *)
Variable upper : string -> string.

(** [_mount_folder_path], lines 308-315: the path returned and
    [self.iso_path] afterwards. *)
Definition mount_folder_path (force_root : bool) (iso_path : list string)
  : list string * list string :=
  if force_root then (iso_path, iso_path)
  else
    let iso_path' :=
      if String.eqb (upper (path_name iso_path)) "VIDEO_TS"
      then path_parent iso_path else iso_path in
    (iso_path' ++ ["VIDEO_TS"], iso_path').

End MountFolder.

(** Upper case on the letters a-z. *)
Definition ascii_upper (c : ascii) : ascii :=
  let n := nat_of_ascii c in
  if ((97 <=? n) && (n <=? 122))%nat then ascii_of_nat (n - 32) else c.

Fixpoint upper_ascii (s : string) : string :=
  match s with
  | EmptyString => EmptyString
  | String c s' => String (ascii_upper c) (upper_ascii s')
  end.

(** * Properties *)

(** ** Indexing *)

Lemma py_getitem_nat {A} (l : list A) (i : nat) (x : A) :
  l !! i = Some x -> py_getitem l (Z.of_nat i) = Ok x.
Proof.
  intros Hi. pose proof (lookup_lt_Some _ _ _ Hi) as Hlt. unfold py_getitem.
  destruct (Z.ltb_spec (Z.of_nat i) 0) as [?|_]; [lia|].
  destruct (Z.leb_spec 0 (Z.of_nat i)) as [_|?]; [|lia].
  destruct (Z.ltb_spec (Z.of_nat i) (Z.of_nat (length l))) as [_|?]; [|lia].
  cbn [andb]. by rewrite Nat2Z.id, Hi.
Qed.

Lemma py_getitem_head {A} (x : A) (l : list A) : py_getitem (x :: l) 0 = Ok x.
Proof. by apply (py_getitem_nat (x :: l) 0). Qed.

Lemma py_getitem_nil {A} (i : Z) : py_getitem (@nil A) i = Raise IndexError.
Proof.
  unfold py_getitem. cbn [length Z.of_nat].
  destruct (Z.ltb_spec i 0).
  - rewrite Z.add_0_r. destruct (Z.leb_spec 0 i); [lia|done].
  - destruct (Z.ltb_spec i (Z.of_nat 0)); [lia|]. by rewrite andb_false_r.
Qed.

(** [l[-1]] is the last element. *)
Lemma py_getitem_last {A} (l : list A) :
  py_getitem l (-1) = match last l with Some x => Ok x | None => Raise IndexError end.
Proof.
  induction l as [|a l _] using rev_ind; [by rewrite py_getitem_nil|].
  rewrite last_snoc. unfold py_getitem. rewrite length_app. cbn [length].
  change (-1 <? 0) with true. cbn match.
  destruct (Z.leb_spec 0 (-1 + Z.of_nat (length l + 1))) as [_|?]; [|lia].
  destruct (Z.ltb_spec (-1 + Z.of_nat (length l + 1)) (Z.of_nat (length l + 1)))
    as [_|?]; [|lia].
  cbn [andb].
  replace (Z.to_nat (-1 + Z.of_nat (length l + 1))) with (length l) by lia.
  by rewrite list_lookup_middle.
Qed.

(** ** Slices *)

(** A slice with bounds [0 <= a <= b] holds the frames with index in
    [[a, b)]. *)
Lemma py_slice_range {A} (l : list A) (a b : Z) :
  0 <= a <= b ->
  py_slice l (Some a) (Some b) = take (Z.to_nat (b - a)) (drop (Z.to_nat a) l).
Proof.
  intros Hab. unfold py_slice, slice_bound.
  destruct (Z.ltb_spec a 0) as [?|_]; [lia|].
  destruct (Z.ltb_spec b 0) as [?|_]; [lia|].
  set (n := Z.of_nat (length l)).
  destruct (Z.le_gt_cases n a) as [Hna|Hna].
  - rewrite Z.min_r by lia.
    rewrite !drop_ge by lia. by rewrite !take_nil.
  - rewrite (Z.min_l a n) by lia.
    destruct (Z.le_gt_cases b n) as [Hb|Hb].
    + by rewrite Z.min_l by lia.
    + rewrite Z.min_r by lia.
      rewrite !take_ge; [done| |]; rewrite length_drop; lia.
Qed.

Lemma py_slice_from {A} (l : list A) (a : Z) :
  0 <= a -> py_slice l (Some a) None = drop (Z.to_nat a) l.
Proof.
  intros Ha. unfold py_slice, slice_bound.
  destruct (Z.ltb_spec a 0) as [?|_]; [lia|].
  set (n := Z.of_nat (length l)).
  destruct (Z.le_gt_cases n a) as [Hna|Hna].
  - rewrite Z.min_r by lia. rewrite !drop_ge by lia. by rewrite take_nil.
  - rewrite Z.min_l by lia. rewrite take_ge; [done|]. rewrite length_drop. lia.
Qed.

Lemma py_slice_upto {A} (l : list A) (b : Z) :
  0 <= b -> py_slice l None (Some b) = take (Z.to_nat b) l.
Proof.
  intros Hb. unfold py_slice, slice_bound.
  destruct (Z.ltb_spec b 0) as [?|_]; [lia|].
  rewrite Z.sub_0_r. change (Z.to_nat 0) with 0%nat. rewrite drop_0.
  destruct (Z.le_gt_cases b (Z.of_nat (length l))).
  - by rewrite Z.min_l by lia.
  - rewrite Z.min_r by lia. rewrite (take_ge l (Z.to_nat b)) by lia.
    rewrite take_ge; [done|lia].
Qed.

(** ** Slices of a clip *)

Lemma vs_slice_run {A} (l : list A) a b :
  py_slice l a b <> [] -> vs_slice l a b = Ok (py_slice l a b).
Proof. unfold vs_slice. by destruct (py_slice l a b). Qed.

Lemma vs_slice_empty {A} (l : list A) a b :
  py_slice l a b = [] -> vs_slice l a b = Raise VSError.
Proof. unfold vs_slice. by intros ->. Qed.

Lemma vs_slice_ok {A} (l : list A) a b s :
  vs_slice l a b = Ok s <-> py_slice l a b = s /\ s <> [].
Proof.
  unfold vs_slice. destruct (py_slice l a b) as [|x r]; split; try done.
  - by intros [<- ?].
  - by intros [= <-].
  - by intros [<- _].
Qed.

Lemma vs_slice_raises {A} (l : list A) a b e :
  vs_slice l a b = Raise e -> e = VSError.
Proof. unfold vs_slice. destruct (py_slice l a b); [by intros [= <-]|done]. Qed.

(** A comprehension of clip slices returns the frames of every slice when
    none is empty and is refused otherwise. *)
Lemma rmap_vs_slice {A} (c : list A) (l : list (Z * Z)) :
  rmap (fun se => vs_slice c (Some (fst se)) (Some (snd se))) l
  = if decide (Forall (fun s => s <> [])
                 (map (fun se => py_slice c (Some (fst se)) (Some (snd se))) l))
    then Ok (map (fun se => py_slice c (Some (fst se)) (Some (snd se))) l)
    else Raise VSError.
Proof.
  induction l as [|se l IH]; cbn [rmap map].
  - by destruct (decide _) as [?|[]].
  - unfold vs_slice at 1.
    destruct (py_slice c (Some (fst se)) (Some (snd se))) as [|x r] eqn:Hs.
    + cbn [rbind]. destruct (decide (Forall _ (_ :: _))) as [H|?]; [|done].
      by apply Forall_cons in H as [? _].
    + cbn [rbind]. rewrite IH.
      destruct (decide (Forall _ (map _ l))) as [H|H]; cbn [rbind].
      * destruct (decide (Forall _ (_ :: _))) as [?|[]]; [done|by constructor].
      * destruct (decide (Forall _ (_ :: _))) as [H'|?]; [|done].
        by apply Forall_cons in H' as [_ ?].
Qed.

(** A slice between non-negative bounds is not empty exactly when it starts
    before its end and inside the sequence. *)
Lemma py_slice_nonempty {A} (l : list A) (a b : Z) :
  0 <= a -> 0 <= b ->
  py_slice l (Some a) (Some b) <> [] <-> a < b /\ a < Z.of_nat (length l).
Proof.
  intros Ha Hb. rewrite <- length_zero_iff_nil.
  destruct (Z.le_gt_cases a b) as [Hab|Hab].
  - rewrite py_slice_range, length_take, length_drop by lia. lia.
  - unfold py_slice, slice_bound.
    destruct (Z.ltb_spec a 0) as [?|_]; [lia|].
    destruct (Z.ltb_spec b 0) as [?|_]; [lia|].
    rewrite length_take. lia.
Qed.

(** ** The state monad *)

Lemma mbind_ok {A B} (m : M A) (k : A -> M B) w b w' :
  mbind m k w = Ok (b, w') <->
  exists a w1, m w = Ok (a, w1) /\ k a w1 = Ok (b, w').
Proof.
  unfold mbind. split.
  - destruct (m w) as [[a w1]|e]; [|done]. eauto.
  - intros (a & w1 & -> & Hk). done.
Qed.

Lemma mret_ok {A} (a b : A) w w' : mret a w = Ok (b, w') -> a = b /\ w = w'.
Proof. by intros [= -> ->]. Qed.

Lemma lift_ok {A} (r : result A) w a w' :
  lift r w = Ok (a, w') <-> r = Ok a /\ w' = w.
Proof.
  unfold lift. destruct r; split; intros H; try done.
  - by inversion H.
  - destruct H as [H ->]. by inversion H.
  - by destruct H.
Qed.

Lemma deref_ok l w row w' :
  deref l w = Ok (row, w') <-> heap w !! l = Some row /\ w' = w.
Proof.
  unfold deref. destruct (heap w !! l); split; intros H; try done.
  - by inversion H.
  - destruct H as [H ->]. by inversion H.
  - by destruct H.
Qed.

Lemma silent_mret {A} (a : A) : silent (mret a).
Proof. intros w a' w' H. by inversion H. Qed.

Lemma silent_lift {A} (r : result A) : silent (lift r).
Proof. intros w a w' H. apply lift_ok in H as [_ ->]. done. Qed.

Lemma silent_alloc row : silent (alloc row).
Proof. intros w a w' H. by inversion H. Qed.

Lemma silent_deref l : silent (deref l).
Proof. intros w a w' H. apply deref_ok in H as [_ ->]. done. Qed.

Lemma silent_store l row : silent (store l row).
Proof. intros w a w' H. by inversion H. Qed.

Lemma silent_mbind {A B} (m : M A) (k : A -> M B) :
  silent m -> (forall a, silent (k a)) -> silent (mbind m k).
Proof.
  intros Hm Hk w b w' H. apply mbind_ok in H as (a & w1 & H1 & H2).
  rewrite (Hk _ _ _ _ H2). eauto.
Qed.

Lemma silent_mapM {A B} (f : A -> M B) (l : list A) :
  (forall x, silent (f x)) -> silent (mapM f l).
Proof.
  intros Hf. induction l as [|x l IH]; cbn [mapM].
  - apply silent_mret.
  - apply silent_mbind; [done|]. intros y.
    apply silent_mbind; [done|]. intros ys. apply silent_mret.
Qed.

Create HintDb silent.
#[local] Hint Resolve silent_mret silent_lift silent_alloc silent_deref
  silent_store silent_mapM : silent.

Ltac silent_tac :=
  repeat first
    [ solve [auto with silent]
    | progress cbv zeta
    | match goal with |- silent (if ?b then _ else _) => destruct b end
    | apply silent_mapM; intros ?
    | apply silent_mbind; [|intros ?] ].

Section SilentPasses.

Context {Frame : Type}.

Lemma silent_split_chapters_clips (clip : list Frame) spl menu :
  silent (split_chapters_clips clip spl menu).
Proof. unfold split_chapters_clips. silent_tac. Qed.

Lemma silent_gen_joined_chapts spl : silent (gen_joined_chapts spl).
Proof. unfold gen_joined_chapts, extend_joined. silent_tac. Qed.

Lemma silent_first_pass (clip : list Frame) ifo_info idx_info :
  silent (first_pass clip ifo_info idx_info).
Proof.
  unfold first_pass.
  pose proof (silent_split_chapters_clips clip).
  pose proof silent_gen_joined_chapts.
  silent_tac.
Qed.

End SilentPasses.

(** ** The passes over the store *)

Lemma last0_last row x : last row = Some x -> last0 row = x.
Proof. unfold last0. by intros ->. Qed.

Lemma py_getitem_last0 (row : list Z) :
  row <> [] -> py_getitem row (-1) = Ok (last0 row).
Proof.
  intros Hne. rewrite py_getitem_last. unfold last0.
  destruct (last row) eqn:Hl; [done|]. by apply last_None in Hl.
Qed.

Lemma mapM_alloc rows w :
  mapM alloc rows w
  = Ok (seq (length (heap w)) (length rows),
        {| heap := heap w ++ rows; stdout := stdout w |}).
Proof.
  revert w. induction rows as [|row rows IH]; intros w; cbn [mapM].
  - unfold mret. rewrite app_nil_r. by destruct w.
  - unfold mbind at 1. cbn [alloc]. unfold mbind at 1. rewrite IH.
    cbn [heap stdout mret length seq]. rewrite length_app. cbn [length].
    rewrite Nat.add_1_r, <- app_assoc. done.
Qed.

Lemma rows_at_seq (h0 rows h1 : list (list Z)) :
  rows_at (h0 ++ rows ++ h1) (seq (length h0) (length rows)) rows.
Proof.
  revert h0. induction rows as [|row rows IH]; intros h0; cbn [length seq].
  - constructor.
  - constructor.
    + by apply list_lookup_middle.
    + specialize (IH (h0 ++ [row])). rewrite length_app in IH.
      cbn [length] in IH. rewrite Nat.add_1_r, <- app_assoc in IH. apply IH.
Qed.

Lemma rows_at_insert_ne h ls rows j m :
  j ∉ ls -> rows_at h ls rows -> rows_at (<[j := m]> h) ls rows.
Proof.
  intros Hj Hrows. unfold rows_at in *.
  induction Hrows as [|l row ls rows Hl Hrows IH].
  - constructor.
  - apply not_elem_of_cons in Hj as [Hne Hj]. constructor.
    + by rewrite list_lookup_insert_ne.
    + by apply IH.
Qed.

Lemma mbind_run {A B} (m : M A) (k : A -> M B) w a w1 :
  m w = Ok (a, w1) -> mbind m k w = k a w1.
Proof. unfold mbind. by intros ->. Qed.

Lemma mbind_raise {A B} (m : M A) (k : A -> M B) w e :
  m w = Raise e -> mbind m k w = Raise e.
Proof. unfold mbind. by intros ->. Qed.

Lemma deref_run l w row : heap w !! l = Some row -> deref l w = Ok (row, w).
Proof. unfold deref. by intros ->. Qed.

Lemma mapM_lasts ls rows w :
  rows_at (heap w) ls rows ->
  Forall (fun row => row <> []) rows ->
  mapM (fun frame => let! row := deref frame in lift (py_getitem row (-1))) ls w
  = Ok (map last0 rows, w).
Proof.
  intros Hrows. induction Hrows as [|l row ls rows Hl Hrows IH]; intros Hne.
  - done.
  - apply Forall_cons in Hne as [Hrow Hne]. cbn [mapM map].
    erewrite mbind_run; cycle 1.
    { erewrite mbind_run by (by apply deref_run).
      by rewrite py_getitem_last0. }
    erewrite mbind_run by (by apply IH). done.
Qed.

Lemma mapM_shift j (m : list Z) (rs : list Z) w :
  heap w !! j = Some m -> m <> [] ->
  mapM (fun r => let! jl := deref j in
                 let! last := lift (py_getitem jl (-1)) in
                 mret (r + last)) rs w
  = Ok (map (fun r => r + last0 m) rs, w).
Proof.
  intros Hj Hm. induction rs as [|r rs IH]; [done|].
  cbn [mapM map].
  erewrite mbind_run; cycle 1.
  { erewrite mbind_run by (by apply deref_run).
    erewrite mbind_run; [done|]. by rewrite py_getitem_last0. }
  erewrite mbind_run by apply IH. done.
Qed.

Lemma extend_joined_spec j l (m r : list Z) w :
  heap w !! j = Some m -> m <> [] -> heap w !! l = Some r ->
  extend_joined j l w
  = Ok (tt, {| heap := <[j := merge_step m r]> (heap w); stdout := stdout w |}).
Proof.
  intros Hj Hm Hl. unfold extend_joined.
  erewrite mbind_run by (by apply deref_run).
  erewrite mbind_run by (by apply (mapM_shift j m)).
  erewrite mbind_run by (by apply deref_run). done.
Qed.

Lemma merge_step_nonempty m r : m <> [] -> merge_step m r <> [].
Proof. unfold merge_step. destruct m; [done|]. done. Qed.

Lemma foldl_merge_step_nonempty m rs : m <> [] -> foldl merge_step m rs <> [].
Proof.
  revert m. induction rs as [|r rs IH]; intros m Hm; [done|].
  cbn [foldl]. by apply IH, merge_step_nonempty.
Qed.

Lemma mapM_extend_joined j ls rs (m : list Z) w :
  heap w !! j = Some m -> m <> [] -> j ∉ ls -> rows_at (heap w) ls rs ->
  exists us,
    mapM (extend_joined j) ls w
    = Ok (us, {| heap := <[j := foldl merge_step m rs]> (heap w);
                 stdout := stdout w |}).
Proof.
  intros Hj Hm Hnot Hrows. revert rs m w Hj Hm Hrows Hnot.
  induction ls as [|l ls IH]; intros rs m w Hj Hm Hrows Hnot.
  - apply Forall2_nil_inv_l in Hrows as ->. exists []. cbn.
    rewrite list_insert_id by done. unfold mret. by destruct w.
  - apply Forall2_cons_inv_l in Hrows as (r & rs' & Hl & Hrows & ->).
    apply not_elem_of_cons in Hnot as [Hne Hnot].
    pose proof (lookup_lt_Some _ _ _ Hj) as Hlt.
    cbn [mapM foldl].
    erewrite mbind_run by (by apply (extend_joined_spec j l m r)).
    set (w1 := {| heap := <[j := merge_step m r]> (heap w); stdout := stdout w |}).
    destruct (IH rs' (merge_step m r) w1) as [us Hus].
    + cbn. by apply list_lookup_insert_eq.
    + by apply merge_step_nonempty.
    + cbn. by apply rows_at_insert_ne.
    + done.
    + exists (tt :: us). erewrite mbind_run by apply Hus.
      cbn [heap stdout w1 mret]. by rewrite list_insert_insert_eq.
Qed.

Lemma gen_joined_chapts_spec j ls rs (m : list Z) w :
  heap w !! j = Some m -> m <> [] -> j ∉ ls -> rows_at (heap w) ls rs ->
  gen_joined_chapts (j :: ls) w
  = Ok (j, {| heap := <[j := foldl merge_step m rs]> (heap w);
              stdout := stdout w |}).
Proof.
  intros Hj Hm Hnot Hrows. unfold gen_joined_chapts.
  erewrite mbind_run by (by rewrite py_getitem_head).
  destruct ls as [|l ls].
  - apply Forall2_nil_inv_l in Hrows as ->. cbn.
    rewrite list_insert_id by done. unfold mret. by destruct w.
  - rewrite bool_decide_eq_true_2 by (cbn [length]; lia).
    rewrite py_slice_from by lia. change (Z.to_nat 1) with 1%nat. cbn [drop].
    destruct (mapM_extend_joined j (l :: ls) rs m w) as [us Hus]; try done.
    by erewrite mbind_run by apply Hus.
Qed.

Section SplitterFacts.

Context {Frame : Type}.
Implicit Types (clip : list Frame).

Lemma split_chapters_clips_spec clip ls rows menu w :
  rows_at (heap w) ls rows ->
  Forall (fun row => row <> []) rows ->
  split_chapters_clips clip ls menu w
  = if decide (Forall (fun s : list Frame => s <> [])
                 (py_slice clip (Some menu) None
                  :: title_clips clip menu (map last0 rows)
                  ++ (if menu =? 0 then [] else [py_slice clip None (Some menu)])))
    then Ok (if menu =? 0 then ((ls, title_clips clip menu (map last0 rows)), w)
             else ((ls ++ [length (heap w)],
                    title_clips clip menu (map last0 rows)
                    ++ [py_slice clip None (Some menu)]),
                   {| heap := heap w ++ [[0; menu]]; stdout := stdout w |}))
    else Raise VSError.
Proof.
  intros Hrows Hne. unfold split_chapters_clips.
  erewrite mbind_run by (by apply (mapM_lasts ls rows)).
  unfold title_clips. cbv zeta.
  remember (py_slice clip (Some menu) None) as clip' eqn:Hc.
  remember (zip (py_slice (accumulate (0 :: map last0 rows)) None (Some (-1)))
                (py_slice (accumulate (0 :: map last0 rows)) (Some 1) None))
    as cuts eqn:Hcuts.
  unfold mbind at 1, lift at 1, vs_slice at 1. rewrite <- Hc.
  destruct clip' as [|f fs].
  { destruct (decide _) as [H|]; [by apply Forall_cons in H as [? _]|done]. }
  set (c := f :: fs). unfold mbind at 1, lift at 1. rewrite rmap_vs_slice.
  destruct (decide (Forall _ (map _ cuts))) as [Ht|Ht]; cycle 1.
  { destruct (decide _) as [H|]; [|done].
    apply Forall_cons in H as [_ [H _]%Forall_app]. done. }
  destruct (Z.eqb_spec menu 0) as [Hm|Hm]; cbn [negb].
  - rewrite app_nil_r. unfold mret.
    destruct (decide _) as [?|[]]; [done|by constructor].
  - unfold mbind at 1, lift at 1, vs_slice at 1.
    destruct (py_slice clip None (Some menu)) as [|g gs] eqn:Hg.
    + destruct (decide _) as [H|]; [|done].
      apply Forall_cons in H as [_ [_ H]%Forall_app].
      by apply Forall_cons in H as [? _].
    + destruct (decide _) as [?|[]]; [done|].
      constructor; [done|]. apply Forall_app. split; [done|].
      by constructor.
Qed.

(** When the splitter returns, no slice it took was empty. *)
Lemma split_chapters_clips_ok clip ls rows menu w x :
  rows_at (heap w) ls rows ->
  Forall (fun row => row <> []) rows ->
  split_chapters_clips clip ls menu w = Ok x ->
  x = (if menu =? 0 then ((ls, title_clips clip menu (map last0 rows)), w)
       else ((ls ++ [length (heap w)],
              title_clips clip menu (map last0 rows)
              ++ [py_slice clip None (Some menu)]),
             {| heap := heap w ++ [[0; menu]]; stdout := stdout w |}))
  /\ py_slice clip (Some menu) None <> []
  /\ Forall (fun s => s <> []) (title_clips clip menu (map last0 rows))
  /\ (menu <> 0 -> py_slice clip None (Some menu) <> []).
Proof.
  intros Hrows Hne. rewrite (split_chapters_clips_spec clip ls rows) by done.
  destruct (decide _) as [H|]; [|done]. intros [= <-].
  apply Forall_cons in H as [Hc [Ht Hm]%Forall_app].
  split; [done|]. split; [done|]. split; [done|].
  intros Hmenu. apply Z.eqb_neq in Hmenu. rewrite Hmenu in Hm.
  by apply Forall_cons in Hm as [? _].
Qed.

Lemma split_chapters_clips_run clip ls rows menu w :
  rows_at (heap w) ls rows ->
  Forall (fun row => row <> []) rows ->
  py_slice clip (Some menu) None <> [] ->
  Forall (fun s => s <> []) (title_clips clip menu (map last0 rows)) ->
  (menu <> 0 -> py_slice clip None (Some menu) <> []) ->
  split_chapters_clips clip ls menu w
  = Ok (if menu =? 0 then ((ls, title_clips clip menu (map last0 rows)), w)
        else ((ls ++ [length (heap w)],
               title_clips clip menu (map last0 rows)
               ++ [py_slice clip None (Some menu)]),
              {| heap := heap w ++ [[0; menu]]; stdout := stdout w |})).
Proof.
  intros Hrows Hne Hc Ht Hm. rewrite (split_chapters_clips_spec clip ls rows) by done.
  destruct (decide _) as [?|[]]; [done|].
  constructor; [done|]. apply Forall_app. split; [done|].
  destruct (Z.eqb_spec menu 0); [constructor|]. constructor; [auto|constructor].
Qed.

(** The only exception of the splitter on non-empty boundary lists is the
    refusal of an empty slice. *)
Lemma split_chapters_clips_refused clip ls rows menu w e :
  rows_at (heap w) ls rows ->
  Forall (fun row => row <> []) rows ->
  split_chapters_clips clip ls menu w = Raise e -> e = VSError.
Proof.
  intros Hrows Hne. rewrite (split_chapters_clips_spec clip ls rows) by done.
  destruct (decide _); [done|]. by intros [= <-].
Qed.

Lemma gen_joined_clip_spec (c0 : list Frame) cs :
  gen_joined_clip (c0 :: cs) = Ok (concat (c0 :: cs)).
Proof.
  unfold gen_joined_clip. rewrite py_getitem_head. cbn [rbind].
  assert (forall (a : list Frame) l,
             foldl (fun joined cclip => joined ++ cclip) a l = a ++ concat l)
    as Hfold.
  { intros a l. revert a. induction l as [|c l IH]; intros a; cbn.
    - by rewrite app_nil_r.
    - by rewrite IH, app_assoc. }
  destruct cs as [|c cs].
  - cbn. by rewrite app_nil_r.
  - rewrite bool_decide_eq_true_2 by (cbn [length]; lia).
    rewrite py_slice_from by lia. change (Z.to_nat 1) with 1%nat. cbn [drop].
    by rewrite Hfold.
Qed.

Lemma length_concat_sum (cs : list (list Frame)) :
  length (concat cs) = sum_list_with length cs.
Proof.
  induction cs as [|c cs IH]; [done|]. cbn. rewrite length_app, IH. done.
Qed.

End SplitterFacts.

(** ** Chapter-range resolution *)

Section Resolver.

Context {Frame : Type}.
Implicit Types (h : list (list Z)) (t : Titles Frame) (clip : list Frame).

(** A slice between two non-negative boundaries, in frames. *)
Lemma trimmed_between clip (lo hi : Z) :
  0 <= lo -> 0 <= hi ->
  trimmed clip lo hi = frames_between clip (Z.to_nat lo) (Z.to_nat hi).
Proof.
  intros Hlo Hhi. unfold trimmed, frames_between.
  pose proof (py_slice_nonempty clip lo hi Hlo Hhi) as Hne.
  destruct (bool_decide_reflect (Z.to_nat lo < Z.to_nat hi
                                 /\ Z.to_nat lo < length clip)%nat) as [H|H].
  - rewrite vs_slice_run by (apply Hne; lia). cbn [rbind].
    rewrite py_slice_range by lia. do 3 f_equal. lia.
  - rewrite vs_slice_empty; [done|].
    destruct (py_slice clip (Some lo) (Some hi)) eqn:Hs; [done|].
    exfalso. apply H. assert (lo < hi /\ lo < Z.of_nat (length clip)) by (by apply Hne).
    lia.
Qed.

(** C5. Over the boundaries [0, 100, 200, 300] a single integer query [c]
    resolves to the frames [200, 300) for [c = -1], to [0, 100) for
    [c = 0], to [200, 300) for [c = 3], and to
    [boundaries[c], boundaries[c+1]) for every other [c] with
    [0 < c < 3]. The frames of the range are returned when the selected
    sequence has a frame in it. *)
Theorem get_title_single_chapter h t clip_index clip :
  select_title h t clip_index = Ok ([0; 100; 200; 300], clip) ->
  get_title h t clip_index (QInt (-1)) = frames_between clip 200 300
  /\ get_title h t clip_index (QInt 0) = frames_between clip 0 100
  /\ get_title h t clip_index (QInt 3) = frames_between clip 200 300
  /\ forall c, 0 < c < 3 ->
       exists lo hi : Z,
         [0; 100; 200; 300] !! Z.to_nat c = Some lo
         /\ [0; 100; 200; 300] !! Z.to_nat (c + 1) = Some hi
         /\ 0 <= lo <= hi
         /\ get_title h t clip_index (QInt c)
            = frames_between clip (Z.to_nat lo) (Z.to_nat hi).
Proof.
  intros Hsel. repeat split.
  - cbn [get_title]. rewrite Hsel. cbv -[trimmed frames_between].
    by rewrite trimmed_between by lia.
  - cbn [get_title]. rewrite Hsel. cbv -[trimmed frames_between].
    by rewrite trimmed_between by lia.
  - cbn [get_title]. rewrite Hsel. cbv -[trimmed frames_between].
    by rewrite trimmed_between by lia.
  - intros c Hc. assert (c = 1 \/ c = 2) as [-> | ->] by lia.
    + exists 100, 200. repeat split; try done.
      cbn [get_title]. rewrite Hsel. cbv -[trimmed frames_between].
      by rewrite trimmed_between by lia.
    + exists 200, 300. repeat split; try done.
      cbn [get_title]. rewrite Hsel. cbv -[trimmed frames_between].
      by rewrite trimmed_between by lia.
Qed.

(** The pair [(1, -1)] over the boundaries [0, 100, 200, 300], for any
    sequence: the negative end is turned into boundary index
    [rlength - 1 + end = 2], so the slice stops at frame 200. *)
Lemma get_title_pair_negative_end h t clip_index clip :
  select_title h t clip_index = Ok ([0; 100; 200; 300], clip) ->
  get_title h t clip_index (QTuple (Some 1) (Some (-1)))
  = frames_between clip 100 200.
Proof.
  intros Hsel. cbn [get_title]. rewrite Hsel. cbv -[trimmed frames_between].
  by rewrite trimmed_between by lia.
Qed.

(** The sibling branches do reach the end of the last chapter: an explicit
    non-negative end is made inclusive ([end += 1]) and an omitted end is
    the last boundary. *)
Lemma get_title_pair_inclusive_end h t clip_index clip :
  select_title h t clip_index = Ok ([0; 100; 200; 300], clip) ->
  get_title h t clip_index (QTuple (Some 1) (Some 2))
  = frames_between clip 100 300
  /\ get_title h t clip_index (QTuple (Some 1) None)
     = frames_between clip 100 300.
Proof.
  intros Hsel. split.
  - cbn [get_title]. rewrite Hsel. cbv -[trimmed frames_between].
    by rewrite trimmed_between by lia.
  - cbn [get_title]. rewrite Hsel. cbv -[trimmed frames_between].
    by rewrite trimmed_between by lia.
Qed.

(** C10. Without chapter query [get_title] returns the selected sequence
    unsliced: the sub-sequence of the title at [clip_index] when an index
    is given, the joined sequence otherwise. *)
Theorem get_title_no_chapters h t clip_index ranges clip :
  select_title h t clip_index = Ok (ranges, clip) ->
  get_title h t clip_index QNone = Ok (TClip clip)
  /\ match clip_index with
     | Some i => py_getitem (split_clips t) i = Ok clip
     | None => clip = joined_clip t
     end.
Proof.
  intros Hsel. split.
  - cbn [get_title]. by rewrite Hsel.
  - unfold select_title in Hsel. destruct clip_index as [i|].
    + destruct (py_getitem (split_chapters t) i) as [l|]; [|done].
      cbn [rbind] in Hsel.
      destruct (py_getitem (split_clips t) i) as [c|]; [|done].
      cbn [rbind] in Hsel. destruct (h !! l); [|done]. by inversion Hsel.
    + destruct (h !! joined_chapters t); [|done]. by inversion Hsel.
Qed.

End Resolver.

Lemma get_title_single_chapter_witness :
  get_title sample_heap sample_titles None (QInt (-1)) = Ok (TClip (seq 200 100))
  /\ get_title sample_heap sample_titles None (QInt 0) = Ok (TClip (seq 0 100))
  /\ get_title sample_heap sample_titles None (QInt 3) = Ok (TClip (seq 200 100)).
Proof.
  destruct (get_title_single_chapter sample_heap sample_titles None (decoded 300))
    as (H1 & H2 & H3 & _); [reflexivity|].
  rewrite H1, H2, H3. repeat split; vm_compute; reflexivity.
Defined.

Lemma get_title_no_chapters_witness :
  get_title sample_heap sample_titles None QNone = Ok (TClip (decoded 300))
  /\ get_title sample_heap sample_titles (Some 0) QNone = Ok (TClip (decoded 300)).
Proof.
  split.
  - apply (get_title_no_chapters sample_heap sample_titles None
             [0; 100; 200; 300] (decoded 300)). reflexivity.
  - apply (get_title_no_chapters sample_heap sample_titles (Some 0)
             [0; 100; 200; 300] (decoded 300)). reflexivity.
Defined.

(** C2. The pair [(1, -1)] over the boundaries [0, 100, 200, 300] of a 300
    frame sequence: the source returns the frames 100..199, that is
    [100, 200), and not [100, 300). *)
Theorem get_title_pair_1_neg1_stops_at_200 :
  get_title sample_heap sample_titles None (QTuple (Some 1) (Some (-1)))
  = Ok (TClip (seq 100 100))
  /\ seq 100 100 <> seq 100 200.
Proof. split; [vm_compute; reflexivity | discriminate]. Qed.

(** ** Chapter extraction on an empty list of IFO files *)

(** C4. With no IFO file under the mount path [get_ifo_info] raises
    nothing: it returns an [IFOFileInfo] without chapters, with the default
    frame rate 30000/1001 and [m_ifos = False]. *)
Theorem get_ifo_info_no_ifo_files FRAMERATE :
  get_ifo_info FRAMERATE []
  = Ok {| chapters := []; ifo_fps := ntsc; m_ifos := false |}
  /\ get_ifo_info FRAMERATE [ {| stem := "VIDEO_TS"; program_chains := [] |} ]
     = Ok {| chapters := []; ifo_fps := ntsc; m_ifos := false |}.
Proof. split; reflexivity. Qed.

(** ** Broken chapters *)

(** C1. One title with boundaries [0, 100, 300], no menu segment, 250 decoded
    frames, strict mode: the overflowing boundary is replaced by
    [250 - 0 - 1 + 0 + 2 = 251], and the regenerated split and joined
    chapters are [0, 100, 251] (location 1 of the store), one frame past the
    250 decoded ones. *)
Theorem strict_single_title_clamps_to_251 :
  split_titles true (decoded 250) (ifo_of [[0; 100; 300]]) idx_no_menu empty_world
  = Ok ({| split_clips := [decoded 250]; split_chapters := [1%nat];
           joined_clip := decoded 250; joined_chapters := 1%nat |},
        {| heap := [[0; 100; 300]; [0; 100; 251]]; stdout := [] |}).
Proof. vm_compute. reflexivity. Qed.

(** The same title on a disc with a 10 frame menu segment: here the
    correction ends exactly on the decoded frame count. *)
Lemma strict_single_title_with_menu_exact :
  split_titles true (decoded 250) (ifo_of [[0; 100; 300]]) (idx_menu 10) empty_world
  = Ok ({| split_clips := [seq 10 240; seq 0 10]; split_chapters := [2%nat; 3%nat];
           joined_clip := seq 10 240 ++ seq 0 10; joined_chapters := 2%nat |},
        {| heap := [[0; 100; 300; 310]; [0; 10]; [0; 100; 240; 250]; [0; 10]];
           stdout := [] |}).
Proof. vm_compute. reflexivity. Qed.

Section Policy.

Context {Frame : Type}.

(** C9. Default mode, final joined boundary above the decoded frame count:
    [split_titles] prints the warning and returns the split clips, split
    chapters, joined clip and joined chapters of the first pass, with the
    store of chapter lists as the first pass left it. *)
Theorem split_titles_default_only_warns (clip : list Frame) ifo_info idx_info
    w t menu w1 final :
  first_pass clip ifo_info idx_info w = Ok ((t, menu), w1) ->
  final_boundary t w1 = Ok (final, w1) ->
  Z.of_nat (length clip) < final ->
  split_titles false clip ifo_info idx_info w
  = Ok (t, {| heap := heap w1; stdout := stdout w ++ [broken_chapters_warning] |}).
Proof.
  intros Hfp Hfin Hlt. unfold split_titles, mbind. rewrite Hfp.
  cbn [fst snd]. rewrite Hfin.
  destruct (Z.ltb_spec (Z.of_nat (length clip)) final) as [_|?]; [|lia].
  cbn. by rewrite (silent_first_pass _ _ _ _ _ _ Hfp).
Qed.

End Policy.

Lemma split_titles_default_only_warns_witness :
  split_titles false (decoded 250) (ifo_of [[0; 100; 200]; [0; 50; 100]])
    idx_no_menu empty_world
  = Ok ({| split_clips := [seq 0 200; seq 200 50]; split_chapters := [0%nat; 1%nat];
           joined_clip := decoded 250; joined_chapters := 0%nat |},
        {| heap := [[0; 100; 200; 250; 300]; [0; 50; 100]];
           stdout := [broken_chapters_warning] |}).
Proof.
  apply (split_titles_default_only_warns (decoded 250)
           (ifo_of [[0; 100; 200]; [0; 50; 100]]) idx_no_menu empty_world
           {| split_clips := [seq 0 200; seq 200 50]; split_chapters := [0%nat; 1%nat];
              joined_clip := decoded 250; joined_chapters := 0%nat |}
           0
           {| heap := [[0; 100; 200; 250; 300]; [0; 50; 100]]; stdout := [] |}
           300).
  - vm_compute. reflexivity.
  - vm_compute. reflexivity.
  - vm_compute. reflexivity.
Defined.

(** ** Chapter extraction *)

Section ExtractorFacts.

Variable FRAMERATE : Z -> option Fraction.

Lemma chain_loop_app st pre post :
  chain_loop FRAMERATE st (pre ++ post)
  = let? st' := chain_loop FRAMERATE st pre in chain_loop FRAMERATE st' post.
Proof.
  revert st. induction pre as [|prog pre IH]; intros st; [done|].
  cbn [app chain_loop]. destruct (chain_step FRAMERATE st prog); [|done].
  cbn [rbind]. apply IH.
Qed.

Lemma chain_step_distinct_codes st prog :
  distinct_rate_codes prog = true ->
  chain_step FRAMERATE st prog = Raise vfr_error.
Proof.
  unfold distinct_rate_codes, chain_step.
  set (codes := map fps (playback_times prog)). intros Hd.
  destruct (forallb _ codes) eqn:Hall; [exfalso|done].
  rewrite forallb_forall in Hall.
  apply existsb_exists in Hd as (a & Ha & Hd).
  apply existsb_exists in Hd as (b & Hb & Hab).
  apply Hall, bool_decide_eq_true in Ha.
  apply Hall, bool_decide_eq_true in Hb.
  rewrite Ha in Hb. inversion Hb; subst. by rewrite Z.eqb_refl in Hab.
Qed.

Lemma chain_loop_distinct_codes st progs prog :
  prog ∈ progs -> distinct_rate_codes prog = true ->
  exists e, chain_loop FRAMERATE st progs = Raise e.
Proof.
  intros Hin Hd. revert st.
  induction Hin as [prog progs|prog other progs Hin IH]; intros st;
    cbn [chain_loop].
  - rewrite chain_step_distinct_codes by done. eauto.
  - destruct (chain_step FRAMERATE st other) as [st'|e]; cbn [rbind]; eauto.
Qed.

(** What a successful walk appends: one row per chain, the leading 0
    followed by the frame count of each playback time at 30 or 25 frames
    per second. *)
Lemma chain_loop_rows st progs st' :
  chain_loop FRAMERATE st progs = Ok st' ->
  exists rows,
    snd st' = snd st ++ rows
    /\ Forall2 (fun prog row =>
                  exists raw_fps, (raw_fps = 30 \/ raw_fps = 25)
                    /\ row = 0 :: map (playback_frames raw_fps) (playback_times prog))
               progs rows.
Proof.
  revert st. induction progs as [|prog progs IH]; intros st; cbn [chain_loop].
  - intros [= <-]. exists []. by rewrite app_nil_r.
  - destruct (chain_step FRAMERATE st prog) as [st1|] eqn:Hstep; [|done].
    cbn [rbind]. intros Hloop. apply IH in Hloop as (rows & Hrows & Hall).
    unfold chain_step in Hstep.
    destruct (forallb _ _); [|done].
    destruct (py_getitem _ 0) as [code|]; [|done]. cbn [rbind] in Hstep.
    destruct (FRAMERATE code) as [f|]; [|done].
    injection Hstep as <-. cbn [snd] in Hrows.
    eexists (_ :: rows). split.
    + rewrite Hrows, <- app_assoc. done.
    + constructor; [|done]. eexists. split; [|done].
      destruct (numerator f =? 30000); auto.
Qed.

Lemma chain_step_accepted st prog :
  accepted_chain FRAMERATE prog = true ->
  exists st', chain_step FRAMERATE st prog = Ok st'.
Proof.
  unfold accepted_chain, chain_step.
  destruct (map fps (playback_times prog)) as [|code codes]; [done|].
  intros [Hall Hsome%bool_decide_eq_true]%andb_prop.
  rewrite forallb_forall in Hall.
  destruct (forallb _ (code :: codes)) eqn:Hu.
  - rewrite py_getitem_head. cbn [rbind]. destruct Hsome as [f ->]. eauto.
  - exfalso. apply not_true_iff_false in Hu. apply Hu.
    apply forallb_forall. intros c [<-|Hc]; apply bool_decide_eq_true; cbn.
    + done.
    + apply Hall, Z.eqb_eq in Hc. by subst.
Qed.

Lemma chain_loop_accepted st progs :
  forallb (accepted_chain FRAMERATE) progs = true ->
  exists st', chain_loop FRAMERATE st progs = Ok st'.
Proof.
  revert st. induction progs as [|prog progs IH]; intros st; cbn; [eauto|].
  intros [Hp Hrest]%andb_prop.
  destruct (chain_step_accepted st prog Hp) as [st1 ->]. cbn. auto.
Qed.

(** Extraction returns a result whenever the loop body accepts every
    walked chain. *)
Lemma get_ifo_info_returns listing :
  forallb (accepted_chain FRAMERATE) (walked_chains listing) = true ->
  exists info, get_ifo_info FRAMERATE listing = Ok info.
Proof.
  intros H. unfold get_ifo_info.
  destruct (chain_loop_accepted (ntsc, []) _ H) as [st Hst].
  unfold walked_chains, ntsc in Hst. rewrite Hst. cbn. eauto.
Qed.

End ExtractorFacts.

(** ** Running sums *)

Lemma accumulate_from_lower acc l x :
  Forall (fun d => 0 <= d) l -> x ∈ accumulate_from acc l -> acc <= x.
Proof.
  intros Hl. revert acc. induction Hl as [|d l Hd Hl IH]; intros acc; cbn.
  - by intros ?%elem_of_nil.
  - intros [->|Hx]%elem_of_cons; [lia|]. apply IH in Hx. lia.
Qed.

Lemma non_decreasing_cons a l :
  (forall x, x ∈ l -> a <= x) -> non_decreasing l -> non_decreasing (a :: l).
Proof.
  intros Ha Hl [|i] [|j] x y Hij Hx Hy; cbn in *.
  - inversion Hx; inversion Hy; lia.
  - inversion Hx; subst. apply Ha. by eapply list_elem_of_lookup_2.
  - lia.
  - eapply (Hl i j); [lia|done..].
Qed.

Lemma accumulate_from_non_decreasing acc l :
  Forall (fun d => 0 <= d) l -> non_decreasing (acc :: accumulate_from acc l).
Proof.
  intros Hl. revert acc. induction Hl as [|d l Hd Hl IH]; intros acc; cbn.
  - intros [|i] [|j] x y Hij Hx Hy; cbn in *; try done.
    inversion Hx; inversion Hy; lia.
  - apply non_decreasing_cons; [|apply IH].
    intros x [->|Hx]%elem_of_cons; [lia|].
    apply accumulate_from_lower in Hx; [lia|done].
  Qed.

Lemma playback_frames_nonneg raw_fps pb_time :
  0 <= raw_fps -> nonneg_time pb_time = true -> 0 <= playback_frames raw_fps pb_time.
Proof.
  unfold nonneg_time, playback_frames. intros Hr H.
  repeat (apply andb_prop in H as [H ?]).
  repeat match goal with Hle : (_ <=? _) = true |- _ => apply Z.leb_le in Hle end.
  nia.
Qed.

(** C7, as the source has it. A program chain whose playback times carry
    two distinct frame-rate codes, among the chains walked for a listing:
    [get_ifo_info] never yields an [IFOFileInfo], hence no chapter
    boundaries of any title; the loop body raises the variable-frame-rate
    error on the chain whatever was collected before; and the error of
    [get_ifo_info] is the variable-frame-rate error when every chain walked
    before it is accepted. *)
Theorem distinct_rate_codes_raise FRAMERATE listing pre prog post :
  walked_chains listing = pre ++ prog :: post ->
  distinct_rate_codes prog = true ->
  (exists e, get_ifo_info FRAMERATE listing = Raise e)
  /\ (forall st, chain_step FRAMERATE st prog = Raise vfr_error)
  /\ (forallb (accepted_chain FRAMERATE) pre = true ->
      get_ifo_info FRAMERATE listing = Raise vfr_error).
Proof.
  intros Hw Hd. split; [|split].
  - unfold get_ifo_info.
    destruct (chain_loop_distinct_codes FRAMERATE (ntsc, [])
                (walked_chains listing) prog) as [e He]; [|done|].
    { rewrite Hw. apply elem_of_app. right. left. }
    unfold walked_chains, ntsc in He. rewrite He. eauto.
  - intros st. by apply chain_step_distinct_codes.
  - intros Hpre. unfold get_ifo_info.
    unfold walked_chains in Hw. rewrite Hw, chain_loop_app.
    destruct (chain_loop_accepted FRAMERATE
                ({| numerator := 30000; denominator := 1001 |}, []) pre Hpre)
      as [st ->].
    cbn [rbind chain_loop]. by rewrite chain_step_distinct_codes.
Qed.

Lemma distinct_rate_codes_raise_witness :
  get_ifo_info dvd_framerate (single_ifo [steady_chain; mixed_chain; steady_chain])
  = Raise vfr_error.
Proof.
  refine (proj2 (proj2 (distinct_rate_codes_raise dvd_framerate
                          (single_ifo [steady_chain; mixed_chain; steady_chain])
                          [steady_chain] mixed_chain [steady_chain] _ _)) _);
    reflexivity.
Defined.

(** A chain that fails for another reason in front of the mixed one is
    reported first: an empty chain raises [IndexError], a chain with a
    frame-rate code that the table does not know raises [KeyError]; the
    variable-frame-rate error is not raised. *)
Lemma earlier_chain_raises_first :
  distinct_rate_codes mixed_chain = true
  /\ mixed_chain ∈ walked_chains (single_ifo [empty_chain; mixed_chain])
  /\ get_ifo_info dvd_framerate (single_ifo [empty_chain; mixed_chain])
     = Raise IndexError
  /\ mixed_chain ∈ walked_chains (single_ifo [unknown_rate_chain; mixed_chain])
  /\ get_ifo_info dvd_framerate (single_ifo [unknown_rate_chain; mixed_chain])
     = Raise KeyError
  /\ IndexError <> vfr_error /\ KeyError <> vfr_error.
Proof.
  split; [reflexivity|]. split; [right; left|]. split; [reflexivity|].
  split; [right; left|]. split; [reflexivity|]. split; discriminate.
Qed.

(** C8. For a walked program chain whose playback times have non-negative
    hours, minutes, seconds and frames, the boundary list [get_ifo_info]
    returns for it is the running sum of 0 followed by the per-time frame
    counts (at 30 or 25 frames per second); it starts at 0 and is
    non-decreasing. *)
Theorem chapter_boundaries_from_zero_non_decreasing FRAMERATE listing info k prog :
  get_ifo_info FRAMERATE listing = Ok info ->
  walked_chains listing !! k = Some prog ->
  forallb nonneg_time (playback_times prog) = true ->
  exists b raw_fps,
    chapters info !! k = Some b
    /\ (raw_fps = 30 \/ raw_fps = 25)
    /\ b = accumulate (0 :: map (playback_frames raw_fps) (playback_times prog))
    /\ b !! 0%nat = Some 0
    /\ non_decreasing b.
Proof.
  unfold get_ifo_info. intros Hinfo Hk Hnn.
  destruct (chain_loop _ _ _) as [st|] eqn:Hloop; [|done].
  injection Hinfo as <-. cbn [chapters].
  apply chain_loop_rows in Hloop as (rows & Hrows & Hall).
  cbn [snd app] in Hrows. rewrite Hrows.
  unfold walked_chains in Hk.
  destruct (Forall2_lookup_l _ _ _ _ _ Hall Hk) as (row & Hrow & raw & Hraw & ->).
  eexists _, raw. split; [|split; [done|split; [done|split; [done|]]]].
  - rewrite list_lookup_fmap, Hrow. done.
  - cbn [accumulate]. apply accumulate_from_non_decreasing.
    rewrite forallb_forall in Hnn. apply Forall_forall. intros d Hd.
    apply list_elem_of_fmap in Hd as (pb & -> & Hpb).
    apply playback_frames_nonneg; [lia|]. apply Hnn. by apply list_elem_of_In.
Qed.

Lemma chapter_boundaries_from_zero_non_decreasing_witness :
  exists b raw_fps,
    chapters {| chapters := [[0; 100; 1900]]; ifo_fps := ntsc; m_ifos := false |}
      !! 0%nat = Some b
    /\ (raw_fps = 30 \/ raw_fps = 25)
    /\ b = accumulate (0 :: map (playback_frames raw_fps) (playback_times steady_chain))
    /\ b !! 0%nat = Some 0
    /\ non_decreasing b.
Proof.
  apply (chapter_boundaries_from_zero_non_decreasing dvd_framerate
           (single_ifo [steady_chain])
           {| chapters := [[0; 100; 1900]]; ifo_fps := ntsc; m_ifos := false |}
           0%nat steady_chain).
  - vm_compute. reflexivity.
  - reflexivity.
  - reflexivity.
Defined.

(** ** The correction walk *)

Lemma py_range_nil a b : b <= a -> py_range a b = [].
Proof. intros H. unfold py_range. by replace (Z.to_nat (b - a)) with 0%nat by lia. Qed.

Lemma py_range_cons a b : a < b -> py_range a b = a :: py_range (a + 1) b.
Proof.
  intros H. unfold py_range.
  replace (Z.to_nat (b - a)) with (S (Z.to_nat (b - (a + 1)))) by lia.
  cbn [seq map]. rewrite Z.add_0_r. f_equal.
  rewrite <- fmap_S_seq. rewrite <- list_fmap_compose.
  apply list_fmap_ext. intros _ k _. cbn. lia.
Qed.

(** [for k in range(a, b): l[k] = v] over a middle segment of the list. *)
Lemma assign_range {A} (v : A) (l1 l2 l3 : list A) :
  foldl (fun nw k => <[Z.to_nat k := v]> nw) (l1 ++ l2 ++ l3)
        (py_range (Z.of_nat (length l1)) (Z.of_nat (length l1 + length l2)))
  = l1 ++ replicate (length l2) v ++ l3.
Proof.
  revert l1. induction l2 as [|x l2 IH]; intros l1.
  - rewrite py_range_nil by (cbn; lia). done.
  - rewrite py_range_cons by (cbn [length]; lia). cbn [foldl].
    rewrite Nat2Z.id, insert_app_r_alt, Nat.sub_diag by done.
    cbn [app insert list_insert replicate length].
    specialize (IH (l1 ++ [v])).
    rewrite length_app in IH. cbn [length] in IH.
    replace (Z.of_nat (length l1 + 1)) with (Z.of_nat (length l1) + 1) in IH by lia.
    replace (length l1 + 1 + length l2)%nat
      with (length l1 + S (length l2))%nat in IH by lia.
    rewrite <- !app_assoc in IH. apply IH.
Qed.

Lemma append_at_middle (p1 rest : list (list Z)) (cur : list Z) (x : Z) :
  append_at (p1 ++ cur :: rest) (length p1) x = p1 ++ (cur ++ [x]) :: rest.
Proof.
  unfold append_at. by rewrite alter_app_r_alt, Nat.sub_diag by done.
Qed.

Section Walk.

Variable old : list (list Z).
Variables num_frames dvd_menu_length : Z.

(** The loop over [j] when every boundary of the row stays below. *)
Lemma title_loop_under offset row p1 cur rest :
  forallb (fun b => b + offset <? num_frames) row = true ->
  title_loop old num_frames dvd_menu_length (length p1) offset row
             (p1 ++ cur :: rest)
  = Ok (p1 ++ (cur ++ row) :: rest, false).
Proof.
  revert cur. induction row as [|b row IH]; intros cur Hall; cbn [title_loop].
  - by rewrite app_nil_r.
  - cbn [forallb] in Hall. apply andb_prop in Hall as [-> Hall].
    rewrite append_at_middle, IH by done. by rewrite <- app_assoc.
Qed.

(** The loop over [j] when [b] is the first boundary that does not. *)
Lemma title_loop_over offset r1 b r2 p1 cur rest :
  forallb (fun b => b + offset <? num_frames) r1 = true ->
  num_frames <= b + offset ->
  title_loop old num_frames dvd_menu_length (length p1) offset (r1 ++ b :: r2)
             (p1 ++ cur :: rest)
  = let? new2 := collapse_tail old dvd_menu_length
                   (p1 ++ (cur ++ r1
                               ++ [num_frames - dvd_menu_length
                                   - Z.of_nat (length old)
                                   + Z.of_nat (length p1) + 2]) :: rest)
                   (length p1) in
    Ok (new2, true).
Proof.
  revert cur. induction r1 as [|x r1 IH]; intros cur Hall Hb;
    cbn [title_loop app].
  - destruct (Z.ltb_spec (b + offset) num_frames) as [?|_]; [lia|].
    by rewrite append_at_middle.
  - cbn [forallb] in Hall. apply andb_prop in Hall as [-> Hall].
    rewrite append_at_middle, IH by done.
    by rewrite <- (app_assoc cur [x]).
Qed.

(** The loop over [i] across rows that stay below. *)
Lemma titles_loop_under p2 : forall p1 rest offset reached n,
  old = p1 ++ p2 ++ rest ->
  below num_frames offset p2 = Some reached ->
  titles_loop old num_frames dvd_menu_length
              (seq (length p1) (length p2 + n)) offset
              (p1 ++ replicate (length p2 + n) [])
  = titles_loop old num_frames dvd_menu_length
                (seq (length p1 + length p2) n) reached
                ((p1 ++ p2) ++ replicate n []).
Proof.
  induction p2 as [|row p2 IH]; intros p1 rest offset reached n Hold Hbelow.
  - cbn in Hbelow. injection Hbelow as ->.
    cbn [length]. by rewrite Nat.add_0_r, app_nil_r.
  - cbn [below] in Hbelow.
    destruct (forallb _ row) eqn:Hall; [|done].
    destruct (last row) as [final|] eqn:Hlast; [|done].
    cbn [length Nat.add seq titles_loop replicate].
    rewrite (py_getitem_nat old (length p1) row)
      by (rewrite Hold; apply list_lookup_middle; done).
    cbn [rbind]. rewrite title_loop_under by done. cbn [rbind snd fst app].
    rewrite py_getitem_last, Hlast. cbn [rbind].
    specialize (IH (p1 ++ [row]) rest (offset + final) reached n).
    rewrite length_app in IH. cbn [length] in IH.
    replace (length p1 + 1)%nat with (S (length p1)) in IH by lia.
    rewrite <- !app_assoc in IH. cbn [app] in IH.
    rewrite IH by done. rewrite <- app_assoc. cbn [app].
    by replace (S (length p1) + length p2)%nat
      with (length p1 + S (length p2))%nat by lia.
Qed.

End Walk.

(** The walk, from its first overflowing boundary. *)
Lemma corrected_chapters_walk (pre post : list (list Z)) (row : list Z)
    (num_frames dvd_menu_length offset b : Z) (j : nat) :
  0 <= dvd_menu_length ->
  below num_frames 0 pre = Some offset ->
  row !! j = Some b ->
  forallb (fun x => x + offset <? num_frames) (take j row) = true ->
  num_frames <= offset + b ->
  (dvd_menu_length = 0 \/ post <> []) ->
  corrected_chapters (pre ++ row :: post) num_frames dvd_menu_length
  = Ok (pre
        ++ (take j row
            ++ [num_frames - dvd_menu_length
                - Z.of_nat (length (pre ++ row :: post))
                + Z.of_nat (length pre) + 2])
        :: (if dvd_menu_length =? 0 then replicate (length post) [0; 1]
            else replicate (length post - 1) [0; 1]
                 ++ drop (length post - 1) post)).
Proof.
  intros Hmenu Hpre Hj Hunder Hover Hnotmenu.
  set (old := pre ++ row :: post).
  unfold corrected_chapters.
  match goal with |- _ = ?r => set (res := r) end.
  replace (length old) with (length pre + S (length post))%nat
    by (unfold old; rewrite length_app; done).
  pose proof (titles_loop_under old num_frames dvd_menu_length pre []
                (row :: post) 0 offset (S (length post))) as Hwalk.
  cbn [app length] in Hwalk. rewrite Hwalk by done. clear Hwalk.
  rewrite Nat.add_0_l. cbn [seq titles_loop replicate].
  rewrite (py_getitem_nat old (length pre) row)
    by (apply list_lookup_middle; done).
  cbn [rbind].
  rewrite <- (take_drop_middle row j b Hj) at 1.
  rewrite title_loop_over by (done || lia).
  cbn [app]. unfold collapse_tail. subst res.
  set (X := take j row ++ _).
  replace (Z.of_nat (length old)) with (Z.of_nat (length pre + 1 + length post))
    by (unfold old; rewrite length_app; cbn [length]; lia).
  destruct Hnotmenu as [-> | Hpost].
  - cbn [Z.ltb Z.eqb negb Z.compare]. rewrite Z.sub_0_r.
    pose proof (assign_range [0; 1] (pre ++ [X]) (replicate (length post) []) [])
      as Hrange.
    rewrite length_app, length_replicate, !app_nil_r in Hrange. cbn [length] in Hrange.
    rewrite <- app_assoc in Hrange. cbn [app] in Hrange.
    replace (Z.of_nat (length pre) + 1) with (Z.of_nat (length pre + 1)) by lia.
    rewrite Hrange. cbn [rbind fst snd]. by rewrite <- app_assoc.
  - destruct post as [|mrow post' _] using rev_ind; [done|].
    rewrite length_app. cbn [length].
    destruct (Z.eqb_spec dvd_menu_length 0) as [->|Hne].
    + cbn [Z.ltb Z.compare negb]. rewrite Z.sub_0_r.
      pose proof (assign_range [0; 1] (pre ++ [X])
                    (replicate (length post' + 1) []) []) as Hrange.
      rewrite length_app, length_replicate, !app_nil_r in Hrange.
      cbn [length] in Hrange.
      rewrite <- app_assoc in Hrange. cbn [app] in Hrange.
      replace (Z.of_nat (length pre) + 1) with (Z.of_nat (length pre + 1)) by lia.
      rewrite Hrange. cbn [rbind fst snd]. by rewrite <- app_assoc.
    + destruct (Z.ltb_spec 0 dvd_menu_length) as [_|?]; [|lia].
      cbn [negb].
      replace (length post' + 1)%nat with (S (length post')) by lia.
      rewrite replicate_S_end.
      pose proof (assign_range [0; 1] (pre ++ [X])
                    (replicate (length post') []) [[]]) as Hrange.
      rewrite length_app, length_replicate in Hrange. cbn [length] in Hrange.
      rewrite <- !app_assoc in Hrange. cbn [app] in Hrange.
      replace (Z.of_nat (length pre) + 1) with (Z.of_nat (length pre + 1)) by lia.
      replace (Z.of_nat (length pre + 1 + S (length post')) - 1)
        with (Z.of_nat (length pre + 1 + length post')) by lia.
      rewrite Hrange. clear Hrange.
      assert (py_getitem old (-1) = Ok mrow) as ->.
      { rewrite py_getitem_last. unfold old.
        change (pre ++ row :: post' ++ [mrow])
          with (pre ++ (row :: post') ++ [mrow]).
        by rewrite app_assoc, last_snoc. }
      cbn [rbind]. unfold py_setitem.
      change (-1 <? 0) with true. cbn match.
      set (new := pre ++ X :: replicate (length post') [0; 1] ++ [[]]).
      assert (length new = (length pre + 1 + length post' + 1)%nat) as Hlen.
      { unfold new. rewrite length_app. cbn [length].
        rewrite length_app, length_replicate. cbn [length]. lia. }
      rewrite Hlen.
      destruct (Z.leb_spec 0 (-1 + Z.of_nat (length pre + 1 + length post' + 1)))
        as [_|?]; [|lia].
      destruct (Z.ltb_spec (-1 + Z.of_nat (length pre + 1 + length post' + 1))
                  (Z.of_nat (length pre + 1 + length post' + 1))) as [_|?]; [|lia].
      cbn [andb rbind fst snd].
      replace (Z.to_nat (-1 + Z.of_nat (length pre + 1 + length post' + 1)))
        with (length (pre ++ X :: replicate (length post') [0; 1]))
        by (rewrite length_app; cbn [length]; rewrite length_replicate; lia).
      unfold new.
      change (pre ++ X :: replicate (length post') [0; 1] ++ [[]])
        with (pre ++ (X :: replicate (length post') [0; 1]) ++ [[]]).
      rewrite app_assoc.
      rewrite insert_app_r_alt, Nat.sub_diag by done.
      cbn [insert list_insert].
      replace (S (length post') - 1)%nat with (length post') by lia.
      rewrite drop_app_length. by rewrite <- app_assoc.
Qed.

(** C3. Strict mode inside [split_titles]: two titles with the boundaries
    [0, 100, 200] and [0, 50, 100], a menu segment of 10 frames, 260 decoded
    frames. Walked with their own boundaries the titles are corrected to
    [[0, 100, 200], [0, 50, 250], [0, 10]]: title 0 is passed, the boundary
    100 of title 1 is the first with [offset + b >= 260] and becomes
    [260 - 10 - 3 + 1 + 2]. In [split_titles] the list of title 0 is the
    joined list [0, 100, 200, 250, 300, 310] by the time the walk runs, so
    the walk stops in title 0: title 0 becomes [0, 100, 200, 250, 249] and
    title 1 is replaced by [[0, 1]]; the menu entry is kept. The second
    join then extends title 0 to [0, 100, 200, 250, 249, 250, 260]. *)
Theorem strict_walk_stops_in_first_title :
  corrected_chapters [[0; 100; 200]; [0; 50; 100]; [0; 10]] 260 10
  = Ok [[0; 100; 200]; [0; 50; 250]; [0; 10]]
  /\ first_pass (decoded 260) (ifo_of [[0; 100; 200]; [0; 50; 100]]) (idx_menu 10)
       empty_world
     = Ok (({| split_clips := [seq 10 200; seq 210 50; seq 0 10];
               split_chapters := [0%nat; 1%nat; 2%nat];
               joined_clip := seq 10 250 ++ seq 0 10; joined_chapters := 0%nat |},
            10),
           {| heap := [[0; 100; 200; 250; 300; 310]; [0; 50; 100]; [0; 10]];
              stdout := [] |})
  /\ corrected_chapters [[0; 100; 200; 250; 300; 310]; [0; 50; 100]; [0; 10]] 260 10
     = Ok [[0; 100; 200; 250; 249]; [0; 1]; [0; 10]]
  /\ split_titles true (decoded 260) (ifo_of [[0; 100; 200]; [0; 50; 100]])
       (idx_menu 10) empty_world
     = Ok ({| split_clips := [seq 10 249; seq 259 1; seq 0 10];
              split_chapters := [3%nat; 4%nat; 5%nat];
              joined_clip := seq 10 250 ++ seq 0 10; joined_chapters := 3%nat |},
           {| heap := [[0; 100; 200; 250; 300; 310]; [0; 50; 100]; [0; 10];
                       [0; 100; 200; 250; 249; 250; 260]; [0; 1]; [0; 10]];
              stdout := [] |}).
Proof. repeat split; vm_compute; reflexivity. Qed.

(** ** Final boundaries and lengths *)

Lemma sumZ_app l1 l2 : sumZ (l1 ++ l2) = sumZ l1 + sumZ l2.
Proof.
  unfold sumZ. induction l1 as [|x l1 IH]; cbn [app foldr]; [done|].
  rewrite IH. lia.
Qed.

Lemma non_decreasing_tail a l : non_decreasing (a :: l) -> non_decreasing l.
Proof. intros H i j x y Hij Hx Hy. apply (H (S i) (S j) x y); [lia|done..]. Qed.

Lemma non_decreasing_head a x l : non_decreasing (a :: l) -> x ∈ l -> a <= x.
Proof.
  intros H [i Hi]%list_elem_of_lookup_1. apply (H 0%nat (S i) a x); [lia|done..].
Qed.

Lemma non_decreasing_le_last l x : non_decreasing l -> x ∈ l -> x <= last0 l.
Proof.
  intros H [i Hi]%list_elem_of_lookup_1. unfold last0.
  pose proof (lookup_lt_Some _ _ _ Hi) as Hlt.
  destruct (last l) as [y|] eqn:Hl.
  - rewrite last_lookup in Hl. apply (H i (pred (length l)) x y); [lia|done..].
  - apply last_None in Hl. subst. cbn in Hlt. lia.
Qed.

Lemma valid_boundaries_nonempty r : valid_boundaries r -> r <> [].
Proof. intros [H0 _] ->. done. Qed.

Lemma valid_boundaries_last_nonneg r : valid_boundaries r -> 0 <= last0 r.
Proof.
  intros [H0 Hnd]. apply non_decreasing_le_last; [done|].
  by eapply list_elem_of_lookup_2.
Qed.

Lemma valid_boundaries_menu menu : 0 <= menu -> valid_boundaries [0; menu].
Proof.
  intros Hm. split; [done|].
  intros [|[|i]] [|[|j]] x y Hij Hx Hy; cbn in *; simplify_eq; lia.
Qed.

Lemma filter_nonzero_all_zero (l : list Z) :
  (forall x, x ∈ l -> x = 0) -> filter (fun r => r <> 0) l = [].
Proof.
  induction l as [|x l IH]; intros H; [done|].
  rewrite filter_cons_False by (intros Hx; apply Hx, H; left).
  apply IH. intros y Hy. apply H. by right.
Qed.

(** Each round moves the final boundary of the joined list by the final
    boundary of the title it appends. *)
Lemma last0_merge_step m r :
  valid_boundaries r -> last0 (merge_step m r) = last0 m + last0 r.
Proof.
  intros Hr. pose proof (valid_boundaries_nonempty r Hr) as Hne.
  destruct Hr as [H0 Hnd]. unfold merge_step.
  destruct (last r) as [lr|] eqn:Hlast; [|by apply last_None in Hlast].
  rewrite (last0_last r lr) by done.
  destruct (decide (lr = 0)) as [->|Hlr].
  - rewrite filter_nonzero_all_zero; [cbn; rewrite app_nil_r; lia|].
    intros x Hx.
    pose proof (non_decreasing_le_last r x Hnd Hx) as Hle.
    rewrite (last0_last r 0) in Hle by done.
    destruct (list_elem_of_lookup_1 _ _ Hx) as [i Hi].
    pose proof (Hnd 0%nat i 0 x ltac:(lia) H0 Hi). lia.
  - apply last_Some in Hlast as [r' ->].
    rewrite filter_app, filter_cons_True, filter_nil by done.
    rewrite fmap_app. cbn [fmap list_fmap]. rewrite app_assoc.
    unfold last0 at 1. rewrite last_snoc. cbn. lia.
Qed.

Lemma last0_foldl_merge_step m rs :
  Forall valid_boundaries rs ->
  last0 (foldl merge_step m rs) = last0 m + sumZ (map last0 rs).
Proof.
  intros Hrs. revert m. unfold sumZ.
  induction Hrs as [|r rs Hr Hrs IH]; intros m; cbn [foldl map foldr].
  - lia.
  - rewrite IH, last0_merge_step by done. lia.
Qed.

Lemma last0_accumulate_from acc l :
  last0 (acc :: accumulate_from acc l) = acc + sumZ l.
Proof.
  revert acc. induction l as [|x l IH]; intros acc; cbn [accumulate_from].
  - unfold last0, sumZ. cbn. lia.
  - unfold last0. rewrite last_cons_cons.
    fold (last0 (acc + x :: accumulate_from (acc + x) l)).
    rewrite IH. unfold sumZ. cbn [foldr]. lia.
Qed.

Lemma py_slice_drop_last {A} (l : list A) :
  py_slice l None (Some (-1)) = take (length l - 1) l.
Proof.
  unfold py_slice, slice_bound. change (-1 <? 0) with true. cbn match.
  change (Z.to_nat 0) with 0%nat. rewrite drop_0. f_equal. lia.
Qed.

Lemma dvd_menu_length_nonneg idx_info menu :
  dvd_menu_length_of idx_info = Ok menu -> 0 <= menu.
Proof.
  unfold dvd_menu_length_of.
  destruct (py_getitem (videos idx_info) 0) as [video|]; [|done]. cbn [rbind].
  intros [= <-]. destruct (_ <? _); lia.
Qed.

Section Lengths.

Context {Frame : Type}.
Implicit Types (clip c : list Frame).

(** Consecutive slices along a non-decreasing list of cut points that stay
    inside the sequence: the lengths add up to the distance between the
    first and the last cut point. *)
Lemma consecutive_lengths c d : forall a,
  non_decreasing (a :: d) -> 0 <= a ->
  last0 (a :: d) <= Z.of_nat (length c) ->
  Z.of_nat (sum_list_with length
              (map (fun se : Z * Z => py_slice c (Some (fst se)) (Some (snd se)))
                   (zip (a :: d) d)))
  = last0 (a :: d) - a.
Proof.
  induction d as [|x d IH]; intros a Hnd Ha Hlast.
  - cbn. lia.
  - assert (a <= x) as Hax by (apply (non_decreasing_head a x (x :: d)); [done|left]).
    assert (last0 (a :: x :: d) = last0 (x :: d)) as Hl
      by (unfold last0; by rewrite last_cons_cons).
    rewrite Hl in *.
    assert (x <= last0 (x :: d)) as Hx.
    { apply non_decreasing_le_last; [by eapply non_decreasing_tail|left]. }
    change (zip (a :: x :: d) (x :: d)) with ((a, x) :: zip (x :: d) d).
    cbn [map sum_list_with fst snd].
    rewrite Nat2Z.inj_add, IH; [|by eapply non_decreasing_tail|lia|done].
    rewrite py_slice_range by lia.
    rewrite length_take, length_drop. lia.
Qed.

Lemma length_accumulate_from acc (l : list Z) :
  length (accumulate_from acc l) = length l.
Proof. revert acc. induction l as [|x l IH]; intros acc; cbn; [done|]. by rewrite IH. Qed.

(** One slice per title. *)
Lemma length_title_clips clip menu lasts :
  length (title_clips clip menu lasts) = length lasts.
Proof.
  unfold title_clips. cbn [accumulate].
  rewrite length_map, py_slice_drop_last, (py_slice_from (0 :: _)) by lia.
  change (Z.to_nat 1) with 1%nat. cbn [drop length].
  rewrite Nat.sub_succ, Nat.sub_0_r, drop_0, zip_with_take_l.
  rewrite length_zip_with. cbn [length]. rewrite length_accumulate_from. lia.
Qed.

Lemma title_clips_lengths clip menu lasts :
  Forall (fun d => 0 <= d) lasts -> 0 <= menu ->
  menu + sumZ lasts <= Z.of_nat (length clip) ->
  Z.of_nat (sum_list_with length (title_clips clip menu lasts)) = sumZ lasts.
Proof.
  intros Hl Hm Hfit. unfold title_clips. cbn [accumulate].
  rewrite py_slice_drop_last, (py_slice_from (0 :: _)) by lia.
  change (Z.to_nat 1) with 1%nat. cbn [drop length].
  rewrite Nat.sub_succ, Nat.sub_0_r.
  rewrite drop_0, zip_with_take_l.
  rewrite py_slice_from by done.
  rewrite consecutive_lengths.
  - rewrite last0_accumulate_from. lia.
  - by apply accumulate_from_non_decreasing.
  - done.
  - rewrite last0_accumulate_from, length_drop. lia.
Qed.

Lemma py_slice_from_nonempty c (a : Z) :
  0 <= a -> py_slice c (Some a) None <> [] <-> a < Z.of_nat (length c).
Proof.
  intros Ha. rewrite py_slice_from, <- length_zero_iff_nil, length_drop by done. lia.
Qed.

Lemma py_slice_upto_nonempty c (b : Z) :
  0 <= b -> py_slice c None (Some b) <> [] <-> 0 < b /\ (0 < length c)%nat.
Proof.
  intros Hb. rewrite py_slice_upto, <- length_zero_iff_nil, length_take by done. lia.
Qed.

(** Consecutive slices along running sums of non-negative counts: none is
    empty exactly when every count is positive and every slice starts
    inside the sequence. *)
Lemma consecutive_nonempty c lasts : forall a,
  0 <= a -> Forall (fun d => 0 <= d) lasts ->
  Forall (fun s => s <> [])
    (map (fun se : Z * Z => py_slice c (Some (fst se)) (Some (snd se)))
         (zip (a :: accumulate_from a lasts) (accumulate_from a lasts)))
  <-> titles_fit (Z.of_nat (length c) - a) lasts = true.
Proof.
  induction lasts as [|x lasts IH]; intros a Ha Hl.
  - cbn. split; [done|constructor].
  - apply Forall_cons in Hl as [Hx Hl]. cbn [accumulate_from titles_fit].
    change (zip (a :: a + x :: accumulate_from (a + x) lasts)
                (a + x :: accumulate_from (a + x) lasts))
      with ((a, a + x) :: zip (a + x :: accumulate_from (a + x) lasts)
                              (accumulate_from (a + x) lasts)).
    cbn [map fst snd]. rewrite Forall_cons, IH by (done || lia).
    rewrite py_slice_nonempty by lia.
    replace (Z.of_nat (length c) - (a + x)) with (Z.of_nat (length c) - a - x) by lia.
    rewrite !andb_true_iff, !Z.ltb_lt.
    split; intros [[? ?] ?]; (split; [split|]); (lia || done).
Qed.

(** The title slices of the splitter: none is empty exactly when the titles
    fit behind the menu segment. *)
Lemma title_clips_nonempty clip menu lasts :
  0 <= menu <= Z.of_nat (length clip) ->
  Forall (fun d => 0 <= d) lasts ->
  Forall (fun s => s <> []) (title_clips clip menu lasts)
  <-> titles_fit (Z.of_nat (length clip) - menu) lasts = true.
Proof.
  intros Hm Hl. unfold title_clips. cbn [accumulate].
  rewrite py_slice_drop_last, (py_slice_from (0 :: _)) by lia.
  change (Z.to_nat 1) with 1%nat. cbn [drop length].
  rewrite Nat.sub_succ, Nat.sub_0_r, drop_0, zip_with_take_l.
  rewrite py_slice_from by lia.
  rewrite consecutive_nonempty by (done || lia).
  rewrite length_drop.
  by replace (Z.of_nat (length clip - Z.to_nat menu) - 0)
    with (Z.of_nat (length clip) - menu) by lia.
Qed.

End Lengths.

Lemma titles_fit_length room lasts :
  titles_fit room lasts = true -> lasts <> [] -> Z.of_nat (length lasts) <= room.
Proof.
  revert room. induction lasts as [|d lasts IH]; intros room Hfit Hne; [done|].
  cbn [titles_fit] in Hfit.
  apply andb_prop in Hfit as [[Hd%Z.ltb_lt Hr%Z.ltb_lt]%andb_prop Hfit].
  destruct lasts as [|d' lasts]; [cbn; lia|].
  specialize (IH _ Hfit ltac:(done)). cbn [length] in *. lia.
Qed.

Lemma titles_fit_placeholders room k :
  titles_fit room (replicate k 1) = true <-> k = 0%nat \/ Z.of_nat k <= room.
Proof.
  revert room. induction k as [|k IH]; intros room; cbn [replicate titles_fit].
  - split; auto.
  - rewrite !andb_true_iff, Z.ltb_lt, IH. change (0 <? 1) with true.
    split.
    + intros [[_ ?] [->|?]]; right; lia.
    + intros [?|?]; [done|]. split; [split; [done|lia]|].
      destruct k; [by left|right; lia].
Qed.

Lemma titles_fit_positive room lasts :
  titles_fit room lasts = true -> Forall (fun d => 0 < d) lasts.
Proof.
  revert room. induction lasts as [|d lasts IH]; intros room Hfit; [constructor|].
  cbn [titles_fit] in Hfit.
  apply andb_prop in Hfit as [[Hd%Z.ltb_lt _]%andb_prop Hfit].
  constructor; [done|by eapply IH].
Qed.

Lemma sumZ_nonneg l : Forall (fun d => 0 <= d) l -> 0 <= sumZ l.
Proof. intros Hl. induction Hl as [|d l Hd Hl IH]; unfold sumZ in *; cbn; lia. Qed.


(** ** The first pass of [split_titles] *)

Section FirstPass.

Context {Frame : Type}.
Implicit Types (clip : list Frame) (t : Titles Frame).

(** What the first pass computes from valid boundary lists. The joined
    chapter list is the list object of the first title, extended in
    place. *)
Lemma first_pass_inv clip ifo_info idx_info w t menu w1 :
  Forall valid_boundaries (chapters ifo_info) ->
  first_pass clip ifo_info idx_info w = Ok ((t, menu), w1) ->
  0 <= menu
  /\ split_clips t
     = title_clips clip menu (map last0 (chapters ifo_info))
       ++ (if menu =? 0 then [] else [py_slice clip None (Some menu)])
  /\ joined_clip t = concat (split_clips t)
  /\ exists r0 rs,
       chapters ifo_info ++ (if menu =? 0 then [] else [[0; menu]]) = r0 :: rs
       /\ split_chapters t = seq (length (heap w)) (S (length rs))
       /\ joined_chapters t = length (heap w)
       /\ heap w1 = <[length (heap w) := foldl merge_step r0 rs]>
                      (heap w ++ r0 :: rs)
       /\ stdout w1 = stdout w.
Proof.
  intros Hvalid Hfp. unfold first_pass in Hfp.
  erewrite mbind_run in Hfp by apply mapM_alloc.
  destruct (dvd_menu_length_of idx_info) as [menu'|] eqn:Hmenu; [|done].
  erewrite mbind_run in Hfp by done.
  pose proof (dvd_menu_length_nonneg _ _ Hmenu) as Hnn.
  set (chs := chapters ifo_info) in *.
  set (rows := chs ++ (if menu' =? 0 then [] else [[0; menu']])).
  set (clips := title_clips clip menu' (map last0 chs)
                ++ (if menu' =? 0 then [] else [py_slice clip None (Some menu')])).
  assert (split_chapters_clips clip (seq (length (heap w)) (length chs)) menu'
            {| heap := heap w ++ chs; stdout := stdout w |}
          = Ok ((seq (length (heap w)) (length rows), clips),
                {| heap := heap w ++ rows; stdout := stdout w |})) as Hsplit.
  { destruct (split_chapters_clips clip (seq (length (heap w)) (length chs)) menu'
                {| heap := heap w ++ chs; stdout := stdout w |}) as [x|e] eqn:Hsc;
      [|by erewrite mbind_raise in Hfp by exact Hsc].
    apply (split_chapters_clips_ok clip _ chs) in Hsc as (-> & _).
    - unfold rows, clips. cbn [heap stdout].
      destruct (menu' =? 0).
      + by rewrite !app_nil_r.
      + rewrite !length_app. cbn [length].
        rewrite seq_app, app_assoc. done.
    - cbn [heap]. pose proof (rows_at_seq (heap w) chs []) as H.
      by rewrite app_nil_r in H.
    - eapply Forall_impl; [exact Hvalid|]. apply valid_boundaries_nonempty. }
  erewrite mbind_run in Hfp by exact Hsplit. cbn [fst snd] in Hfp.
  destruct clips as [|c0 cs] eqn:Hclips; [done|].
  erewrite mbind_run in Hfp by (by rewrite gen_joined_clip_spec).
  destruct rows as [|r0 rs] eqn:Hrows; [done|].
  assert (Forall valid_boundaries (r0 :: rs)) as Hvrows.
  { rewrite <- Hrows. unfold rows. apply Forall_app. split; [done|].
    destruct (menu' =? 0); [constructor|].
    constructor; [by apply valid_boundaries_menu|constructor]. }
  apply Forall_cons in Hvrows as [Hr0 Hrs].
  cbn [length seq] in Hfp.
  erewrite mbind_run in Hfp; cycle 1.
  { apply (gen_joined_chapts_spec _ _ rs r0); cbn [heap].
    - by apply list_lookup_middle.
    - by apply valid_boundaries_nonempty.
    - rewrite elem_of_seq. lia.
    - pose proof (rows_at_seq (heap w ++ [r0]) rs []) as H.
      rewrite length_app, app_nil_r, <- app_assoc in H. cbn [length app] in H.
      by rewrite Nat.add_1_r in H. }
  unfold mret in Hfp. cbn [heap stdout] in Hfp.
  injection Hfp as <- <- <-. cbn [split_clips joined_clip split_chapters joined_chapters heap stdout].
  split; [done|]. split; [done|]. split; [done|].
  exists r0, rs. done.
Qed.

(** The joined chapter list and the chapter list of title 0 are one
    object. *)
Lemma first_pass_joined_is_first_title clip ifo_info idx_info w t menu w1 :
  Forall valid_boundaries (chapters ifo_info) ->
  first_pass clip ifo_info idx_info w = Ok ((t, menu), w1) ->
  split_chapters t !! 0%nat = Some (joined_chapters t).
Proof.
  intros Hv Hfp.
  destruct (first_pass_inv _ _ _ _ _ _ _ Hv Hfp)
    as (_ & _ & _ & r0 & rs & _ & -> & -> & _).
  done.
Qed.

(** C6. When the final boundary of the joined chapter list of the first
    pass does not exceed the decoded frame count, [split_titles] returns
    the result of the first pass; the frame count of the joined sequence
    is the sum of the frame counts of the split sequences, and the final
    joined boundary equals it. The boundary lists that enter are valid
    ChapterBoundaries (they start at 0 and never decrease). *)
Theorem split_titles_no_correction_lengths safe_indices clip ifo_info idx_info
    w t menu w1 final :
  Forall valid_boundaries (chapters ifo_info) ->
  first_pass clip ifo_info idx_info w = Ok ((t, menu), w1) ->
  final_boundary t w1 = Ok (final, w1) ->
  final <= Z.of_nat (length clip) ->
  split_titles safe_indices clip ifo_info idx_info w = Ok (t, w1)
  /\ length (joined_clip t) = sum_list_with length (split_clips t)
  /\ final = Z.of_nat (length (joined_clip t)).
Proof.
  intros Hvalid Hfp Hfin Hle.
  destruct (first_pass_inv _ _ _ _ _ _ _ Hvalid Hfp)
    as (Hmenu & Hclips & Hjoined & r0 & rs & Hrows & _ & Hloc & Hheap & _).
  split; [|split].
  - unfold split_titles. erewrite mbind_run by exact Hfp. cbn [fst snd].
    erewrite mbind_run by exact Hfin.
    destruct (Z.ltb_spec (Z.of_nat (length clip)) final) as [?|_]; [lia|done].
  - by rewrite Hjoined, length_concat_sum.
  - rewrite Hjoined, length_concat_sum.
    unfold final_boundary in Hfin.
    apply mbind_ok in Hfin as (jl & w2 & [Hjl ->]%deref_ok & [Hlast _]%lift_ok).
    rewrite Hloc, Hheap, list_lookup_insert_eq in Hjl
      by (rewrite length_app; cbn [length]; lia).
    injection Hjl as <-.
    assert (Forall valid_boundaries (r0 :: rs)) as Hvrows.
    { rewrite <- Hrows. apply Forall_app. split; [done|].
      destruct (menu =? 0); [constructor|].
      constructor; [by apply valid_boundaries_menu|constructor]. }
    apply Forall_cons in Hvrows as [Hr0 Hrs].
    rewrite py_getitem_last0 in Hlast
      by (apply foldl_merge_step_nonempty; by apply valid_boundaries_nonempty).
    injection Hlast as <-.
    rewrite last0_foldl_merge_step in * by done.
    change (last0 r0 + sumZ (map last0 rs)) with (sumZ (map last0 (r0 :: rs))) in *.
    rewrite <- Hrows, map_app, sumZ_app in *.
    assert (sumZ (map last0 (if menu =? 0 then [] else [[0; menu]])) = menu) as Hm.
    { destruct (Z.eqb_spec menu 0) as [->|_]; [done|].
      unfold sumZ, last0. cbn. lia. }
    rewrite Hm in *.
    assert (Forall (fun d => 0 <= d) (map last0 (chapters ifo_info))) as Hnn.
    { apply Forall_fmap. eapply Forall_impl; [exact Hvalid|].
      apply valid_boundaries_last_nonneg. }
    assert (0 <= sumZ (map last0 (chapters ifo_info))) as Hsum.
    { clear -Hnn. induction Hnn as [|d l Hd Hl IH]; unfold sumZ in *; cbn; lia. }
    rewrite Hclips, sum_list_with_app, Nat2Z.inj_add.
    rewrite title_clips_lengths by (done || lia).
    f_equal. destruct (Z.eqb_spec menu 0) as [->|_]; [done|].
    cbn [sum_list_with]. rewrite py_slice_upto, length_take by done. lia.
Qed.

End FirstPass.

(** Boundary lists returned by the extractor for chains with non-negative
    time fields are valid ChapterBoundaries. *)
Lemma get_ifo_info_valid_boundaries FRAMERATE listing info :
  get_ifo_info FRAMERATE listing = Ok info ->
  forallb (fun prog => forallb nonneg_time (playback_times prog))
          (walked_chains listing) = true ->
  Forall valid_boundaries (chapters info).
Proof.
  unfold get_ifo_info. intros Hinfo Hnn.
  destruct (chain_loop _ _ _) as [st|] eqn:Hloop; [|done].
  injection Hinfo as <-. cbn [chapters].
  apply chain_loop_rows in Hloop as (rows & Hrows & Hall).
  cbn [snd app] in Hrows. rewrite Hrows. fold (walked_chains listing) in Hall.
  rewrite forallb_forall in Hnn.
  apply Forall_fmap, Forall_forall. intros row Hrow.
  destruct (list_elem_of_lookup_1 _ _ Hrow) as [k Hk].
  destruct (Forall2_lookup_r _ _ _ _ _ Hall Hk) as (prog & Hprog & raw & Hraw & ->).
  split; [done|]. cbn [accumulate]. apply accumulate_from_non_decreasing.
  assert (forallb nonneg_time (playback_times prog) = true) as Hp
    by (apply Hnn, list_elem_of_In; by eapply list_elem_of_lookup_2).
  rewrite forallb_forall in Hp. apply Forall_forall. intros d Hd.
  apply list_elem_of_fmap in Hd as (pb & -> & Hpb).
  apply playback_frames_nonneg; [lia|]. apply Hp. by apply list_elem_of_In.
Qed.

Lemma split_titles_no_correction_lengths_witness :
  split_titles false (decoded 350) (ifo_of [[0; 100; 200]; [0; 50; 100]])
    (idx_menu 10) empty_world
  = Ok ({| split_clips := [seq 10 200; seq 210 100; seq 0 10];
           split_chapters := [0%nat; 1%nat; 2%nat];
           joined_clip := seq 10 300 ++ seq 0 10; joined_chapters := 0%nat |},
        {| heap := [[0; 100; 200; 250; 300; 310]; [0; 50; 100]; [0; 10]];
           stdout := [] |})
  /\ length (seq 10 300 ++ seq 0 10) = sum_list_with length [seq 10 200; seq 210 100; seq 0 10]
  /\ 310 = Z.of_nat (length (seq 10 300 ++ seq 0 10)).
Proof.
  refine (split_titles_no_correction_lengths false (decoded 350)
            (ifo_of [[0; 100; 200]; [0; 50; 100]]) (idx_menu 10) empty_world
            {| split_clips := [seq 10 200; seq 210 100; seq 0 10];
               split_chapters := [0%nat; 1%nat; 2%nat];
               joined_clip := seq 10 300 ++ seq 0 10; joined_chapters := 0%nat |}
            10
            {| heap := [[0; 100; 200; 250; 300; 310]; [0; 50; 100]; [0; 10]];
               stdout := [] |}
            310 _ _ _ _).
  - repeat constructor; intros [|[|[|i]]] [|[|[|j]]] x y Hij Hx Hy;
      cbn in *; simplify_eq; lia.
  - vm_compute. reflexivity.
  - vm_compute. reflexivity.
  - vm_compute. discriminate.
Defined.

(** ** The outcome of the strict correction *)

Lemma mapM_deref ls rows w :
  rows_at (heap w) ls rows -> mapM deref ls w = Ok (rows, w).
Proof.
  intros Hrows. induction Hrows as [|l row ls rows Hl Hrows IH]; [done|].
  cbn [mapM]. erewrite mbind_run by (by apply deref_run).
  erewrite mbind_run by apply IH. done.
Qed.

(** A row with a boundary at or beyond [num_frames] has a first one. *)
Lemma first_overflow num_frames offset (row : list Z) x :
  x ∈ row -> num_frames <= offset + x ->
  exists j b,
    row !! j = Some b
    /\ forallb (fun y => y + offset <? num_frames) (take j row) = true
    /\ num_frames <= offset + b.
Proof.
  intros Hx Hover. induction row as [|y row IH]; [by apply elem_of_nil in Hx|].
  destruct (Z.ltb_spec (y + offset) num_frames) as [Hy|Hy].
  - apply elem_of_cons in Hx as [->|Hx]; [lia|].
    destruct (IH Hx) as (j & b & Hj & Hunder & Hb).
    exists (S j), b. cbn. split; [done|]. split; [|done].
    apply andb_true_intro. split; [by apply Z.ltb_lt|done].
  - exists 0%nat, y. cbn. split; [done|]. split; [done|lia].
Qed.

Lemma last0_snoc (l : list Z) x : last0 (l ++ [x]) = x.
Proof. unfold last0. by rewrite last_snoc. Qed.

Lemma valid_boundaries_placeholder : valid_boundaries [0; 1].
Proof. by apply valid_boundaries_menu. Qed.

Lemma sumZ_replicate_placeholder n :
  sumZ (map last0 (replicate n [0; 1])) = Z.of_nat n.
Proof.
  induction n as [|n IH]; [done|].
  cbn [replicate map]. unfold sumZ in *. cbn [foldr]. rewrite IH.
  unfold last0. cbn. lia.
Qed.

Section StrictOutcome.

Context {Frame : Type}.
Implicit Types (clip : list Frame) (t : Titles Frame).

(** A first pass that returns has taken no empty slice: the menu segment is
    shorter than the decoded sequence and the titles fit behind it. *)
Lemma first_pass_fits clip ifo_info idx_info w t menu w1 :
  Forall valid_boundaries (chapters ifo_info) ->
  first_pass clip ifo_info idx_info w = Ok ((t, menu), w1) ->
  0 <= menu < Z.of_nat (length clip)
  /\ titles_fit (Z.of_nat (length clip) - menu) (map last0 (chapters ifo_info))
     = true.
Proof.
  intros Hvalid Hfp. unfold first_pass in Hfp.
  erewrite mbind_run in Hfp by apply mapM_alloc.
  destruct (dvd_menu_length_of idx_info) as [menu'|] eqn:Hmenu; [|done].
  erewrite mbind_run in Hfp by done.
  pose proof (dvd_menu_length_nonneg _ _ Hmenu) as Hnn.
  apply mbind_ok in Hfp as (sc & wc & Hsc & Hfp).
  apply mbind_ok in Hfp as (jc & wd & _ & Hfp).
  apply mbind_ok in Hfp as (jch & we & _ & Hfp).
  apply mret_ok in Hfp as [[= _ <-] _].
  apply (split_chapters_clips_ok clip _ (chapters ifo_info)) in Hsc
    as (_ & Hc & Ht & _).
  - apply py_slice_from_nonempty in Hc; [|done]. split; [lia|].
    apply title_clips_nonempty; [lia| |done].
    apply Forall_fmap. eapply Forall_impl; [exact Hvalid|].
    apply valid_boundaries_last_nonneg.
  - cbn [heap]. pose proof (rows_at_seq (heap w) (chapters ifo_info) []) as H.
    by rewrite app_nil_r in H.
  - eapply Forall_impl; [exact Hvalid|]. apply valid_boundaries_nonempty.
Qed.

(** Strict mode on a disc with at least one title whose first pass ends
    beyond the decoded frame count. The walk of the corrector reads the
    joined list as title 0, so it stops there: title 0 keeps a prefix of the
    joined list and gets the clamp, every later title becomes [[0, 1]], and
    these lists go through the splitter and the joiner again. *)
Lemma strict_mode_walk clip ifo_info idx_info w t menu w1 final :
Forall valid_boundaries (chapters ifo_info) ->
chapters ifo_info <> [] ->
first_pass clip ifo_info idx_info w = Ok ((t, menu), w1) ->
final_boundary t w1 = Ok (final, w1) ->
Z.of_nat (length clip) < final ->
exists kept : list Z,
  let X := kept ++ [Z.of_nat (length clip) - menu
                    - Z.of_nat (length (chapters ifo_info))
                    - (if menu =? 0 then 0 else 1) + 2] in
  let rows2 := X :: replicate (length (chapters ifo_info) - 1) [0; 1] in
  split_titles true clip ifo_info idx_info w
  = (let! sc := split_chapters_clips clip
                  (seq (length (heap w1)) (length rows2)) menu in
     let! joined_clip := lift (gen_joined_clip (snd sc)) in
     let! joined_chapters := gen_joined_chapts (fst sc) in
     mret {| split_clips := snd sc; split_chapters := fst sc;
             joined_clip := joined_clip; joined_chapters := joined_chapters |})
      {| heap := heap w1 ++ rows2; stdout := stdout w1 |}.
Proof.
intros Hvalid Htitles Hfp Hfin Hover.
destruct (first_pass_inv _ _ _ _ _ _ _ Hvalid Hfp)
  as (Hmenu & _ & _ & r0 & rs & Hrows & Hspl & Hloc & Hheap & Hout).
set (N := Z.of_nat (length clip)) in *.
set (n0 := length (heap w)) in *.
set (merged := foldl merge_step r0 rs) in *.
assert (Forall valid_boundaries (r0 :: rs)) as Hvrows.
{ rewrite <- Hrows. apply Forall_app. split; [done|].
  destruct (menu =? 0); [constructor|].
  constructor; [by apply valid_boundaries_menu|constructor]. }
apply Forall_cons in Hvrows as [Hr0 Hrs].
assert (merged <> []) as Hmne
  by (apply foldl_merge_step_nonempty; by apply valid_boundaries_nonempty).
assert (heap w1 !! n0 = Some merged) as Hjl.
{ rewrite Hheap. apply list_lookup_insert_eq. rewrite length_app. cbn. lia. }
assert (final = last0 merged) as ->.
{ unfold final_boundary in Hfin.
  apply mbind_ok in Hfin as (jl & w' & [Hd ->]%deref_ok & [Hl _]%lift_ok).
  rewrite Hloc in Hd.
  assert (Some jl = Some merged) as [= ->] by (rewrite <- Hd; exact Hjl).
  rewrite py_getitem_last0 in Hl by done. by injection Hl. }
(* the rows the walk reads *)
assert (rows_at (heap w1) (split_chapters t) (merged :: rs)) as Hat.
{ rewrite Hspl. cbn [seq]. constructor; [done|].
  rewrite Hheap. apply rows_at_insert_ne; [rewrite elem_of_seq; lia|].
  pose proof (rows_at_seq (heap w ++ [r0]) rs []) as H.
  rewrite length_app, app_nil_r, <- app_assoc in H. cbn [length app] in H.
  by rewrite Nat.add_1_r in H. }
(* the walk stops in title 0 *)
assert (menu = 0 \/ rs <> []) as Hnotmenu.
{ destruct (Z.eqb_spec menu 0) as [?|_]; [by left|right].
  destruct (chapters ifo_info) as [|c cs]; [done|].
  cbn in Hrows. injection Hrows as _ <-. by destruct cs. }
destruct (first_overflow N 0 merged (last0 merged)) as (j & b & Hj & Hunder & Hb).
{ unfold last0. destruct (last merged) eqn:Hl; [|by apply last_None in Hl].
  by apply last_Some_elem_of. }
{ lia. }
pose proof (corrected_chapters_walk [] rs merged N menu 0 b j
              Hmenu eq_refl Hj Hunder Hb Hnotmenu) as Hwalk.
cbn [app length] in Hwalk.
set (X := take j merged ++ [_]) in Hwalk.
(* the rows handed to the second split *)
set (later := (length (chapters ifo_info) - 1)%nat).
assert ((if menu =? 0
         then X :: (if menu =? 0 then replicate (length rs) [0; 1]
                    else replicate (length rs - 1) [0; 1]
                         ++ drop (length rs - 1) rs)
         else py_slice (X :: (if menu =? 0 then replicate (length rs) [0; 1]
                              else replicate (length rs - 1) [0; 1]
                                   ++ drop (length rs - 1) rs))
                       None (Some (-1)))
        = X :: replicate later [0; 1]
        /\ Z.of_nat (length rs)
           = Z.of_nat later + (if menu =? 0 then 0 else 1)) as [Hnew Hcount].
{ assert (length (chapters ifo_info ++ (if menu =? 0 then [] else [[0; menu]]))
          = S (length rs)) as Hlen by (by rewrite Hrows).
  rewrite length_app in Hlen. unfold later.
  destruct (Z.eqb_spec menu 0) as [Hm0|Hm0]; cbn [length] in Hlen.
  - split; [f_equal; f_equal; lia|lia].
  - assert (rs <> []) as Hne by (by destruct Hnotmenu).
    split; [|destruct (chapters ifo_info); [done|cbn [length] in *; lia]].
    rewrite py_slice_drop_last. cbn [length].
    rewrite length_app, length_replicate, length_drop.
    replace (S (length rs - 1 + (length rs - (length rs - 1))) - 1)%nat
      with (S (length rs - 1)) by (destruct rs; [done|cbn [length]; lia]).
    cbn [take]. rewrite take_app_length' by (by rewrite length_replicate).
    f_equal. f_equal. destruct (chapters ifo_info); [done|cbn [length] in *; lia]. }
exists (take j merged). cbv zeta. fold N later.
assert (Z.of_nat (length (chapters ifo_info)) = Z.of_nat later + 1) as Htitles'
  by (unfold later; destruct (chapters ifo_info); [done|cbn [length]; lia]).
replace (N - menu - Z.of_nat (length (chapters ifo_info))
         - (if menu =? 0 then 0 else 1) + 2)
  with (N - menu - Z.of_nat (S (length rs)) + Z.of_nat 0 + 2) by lia.
fold X.
unfold split_titles. erewrite mbind_run by exact Hfp. cbn [fst snd].
erewrite mbind_run by exact Hfin. fold N.
destruct (Z.ltb_spec N (last0 merged)) as [_|?]; [|lia].
cbn [negb]. cbv beta iota. unfold correction_pass.
erewrite mbind_run by (by apply mapM_deref).
fold N. erewrite mbind_run by (by rewrite Hwalk).
rewrite Hnew.
erewrite mbind_run by apply mapM_alloc.
done.
Qed.

Lemma last0_placeholders k : map last0 (replicate k [0; 1]) = replicate k 1.
Proof. induction k as [|k IH]; [done|]. cbn [replicate map]. by rewrite IH. Qed.

(** The store and the split chapter lists after the strict correction, on
    the discs for which the second split takes no empty slice: those with a
    menu segment, and those with a single title. *)
Lemma strict_mode_result clip ifo_info idx_info w t menu w1 final :
Forall valid_boundaries (chapters ifo_info) ->
chapters ifo_info <> [] ->
first_pass clip ifo_info idx_info w = Ok ((t, menu), w1) ->
final_boundary t w1 = Ok (final, w1) ->
Z.of_nat (length clip) < final ->
menu <> 0 \/ length (chapters ifo_info) = 1%nat ->
let rest := replicate (length (chapters ifo_info) - 1) [0; 1]
            ++ (if menu =? 0 then [] else [[0; menu]]) in
exists t' w2 X,
  split_titles true clip ifo_info idx_info w = Ok (t', w2)
  /\ split_chapters t' = seq (length (heap w1)) (S (length rest))
  /\ joined_chapters t' = length (heap w1)
  /\ X <> []
  /\ last0 X = (if menu =? 0 then Z.of_nat (length clip) + 1
                else Z.of_nat (length clip) - menu
                     - Z.of_nat (length (chapters ifo_info)) + 1)
  /\ heap w2 = <[length (heap w1) := foldl merge_step X rest]>
                 (heap w1 ++ X :: rest).
Proof.
intros Hvalid Htitles Hfp Hfin Hover Hcase rest.
destruct (strict_mode_walk _ _ _ _ _ _ _ _ Hvalid Htitles Hfp Hfin Hover)
  as (kept & Hrun).
destruct (first_pass_fits _ _ _ _ _ _ _ Hvalid Hfp) as (Hmenu & Hfit).
cbv zeta in Hrun.
set (N := Z.of_nat (length clip)) in *.
set (later := (length (chapters ifo_info) - 1)%nat) in *.
set (clamp := N - menu - Z.of_nat (length (chapters ifo_info))
              - (if menu =? 0 then 0 else 1) + 2) in *.
set (X := kept ++ [clamp]) in *.
set (rows2 := X :: replicate later [0; 1]) in *.
assert (Z.of_nat (length (chapters ifo_info)) = Z.of_nat later + 1) as Htitles'
  by (unfold later; destruct (chapters ifo_info); [done|cbn [length]; lia]).
assert (Z.of_nat later + 1 <= N - menu) as Hroom.
{ rewrite <- Htitles', <- (length_map last0). apply titles_fit_length; [done|].
  by destruct (chapters ifo_info). }
assert (0 < clamp /\ N - menu - clamp = Z.of_nat later
                                        - (if menu =? 0 then 1 else 0)) as [Hclamp Hleft].
{ unfold clamp. destruct (Z.eqb_spec menu 0); lia. }
assert (X <> []) as HX by (unfold X; by destruct kept).
set (rows3 := rows2 ++ (if menu =? 0 then [] else [[0; menu]])).
set (n1 := length (heap w1)) in *.
set (clips := title_clips clip menu (map last0 rows2)
              ++ (if menu =? 0 then [] else [py_slice clip None (Some menu)])).
assert (Forall valid_boundaries
          (replicate later [0; 1] ++ (if menu =? 0 then [] else [[0; menu]])))
  as Hvtail.
{ apply Forall_app. split.
  - apply Forall_replicate, valid_boundaries_placeholder.
  - destruct (menu =? 0); [constructor|].
    constructor; [apply valid_boundaries_menu; lia|constructor]. }
assert (map last0 rows2 = clamp :: replicate later 1) as Hlasts.
{ unfold rows2. cbn [map]. unfold X. by rewrite last0_snoc, last0_placeholders. }
assert (split_chapters_clips clip (seq n1 (length rows2)) menu
          {| heap := heap w1 ++ rows2; stdout := stdout w1 |}
        = Ok ((seq n1 (length rows3), clips),
              {| heap := heap w1 ++ rows3; stdout := stdout w1 |})) as Hsplit.
{ rewrite (split_chapters_clips_run clip _ rows2).
  - unfold rows3, clips. cbn [heap stdout].
    destruct (menu =? 0).
    + by rewrite !app_nil_r.
    + rewrite !length_app. cbn [length]. fold n1.
      rewrite seq_app, app_assoc. done.
  - cbn [heap]. pose proof (rows_at_seq (heap w1) rows2 []) as H.
    by rewrite app_nil_r in H.
  - constructor; [done|]. apply Forall_replicate. done.
  - apply py_slice_from_nonempty; lia.
  - apply title_clips_nonempty; [lia| |].
    + rewrite Hlasts. constructor; [lia|]. apply Forall_replicate. lia.
    + rewrite Hlasts. cbn [titles_fit].
      apply andb_true_intro. split.
      * apply andb_true_intro. split; apply Z.ltb_lt; lia.
      * apply titles_fit_placeholders. fold N. rewrite Hleft.
        destruct Hcase as [Hm|Hone].
        -- right. destruct (Z.eqb_spec menu 0); [done|lia].
        -- left. unfold later. lia.
  - intros Hm. apply py_slice_upto_nonempty; lia. }
destruct clips as [|c0 cs] eqn:Hclips.
{ apply (f_equal length) in Hclips. unfold clips in Hclips.
  rewrite length_app, length_title_clips in Hclips. cbn in Hclips. lia. }
set (tail3 := replicate later [0; 1] ++ (if menu =? 0 then [] else [[0; menu]])).
assert (rows3 = X :: tail3) as Hrows3 by done.
set (t' := {| split_clips := c0 :: cs; split_chapters := seq n1 (length rows3);
              joined_clip := concat (c0 :: cs); joined_chapters := n1 |}).
set (w2 := {| heap := <[n1 := foldl merge_step X tail3]> (heap w1 ++ rows3);
              stdout := stdout w1 |}).
exists t', w2, X. split; [|split; [|split; [|split; [|split]]]].
- rewrite Hrun.
  erewrite mbind_run by exact Hsplit. cbn [fst snd].
  erewrite mbind_run by (by rewrite gen_joined_clip_spec).
  rewrite Hrows3. cbn [length seq].
  erewrite mbind_run; cycle 1.
  { apply (gen_joined_chapts_spec _ _ tail3 X); cbn [heap].
    - by apply list_lookup_middle.
    - done.
    - rewrite elem_of_seq. lia.
    - pose proof (rows_at_seq (heap w1 ++ [X]) tail3 []) as H.
      rewrite length_app, app_nil_r, <- app_assoc in H. cbn [length app] in H.
      fold n1 in H. by rewrite Nat.add_1_r in H. }
  done.
- cbn [split_chapters t']. by rewrite Hrows3.
- done.
- done.
- unfold X. rewrite last0_snoc. unfold clamp.
  destruct (Z.eqb_spec menu 0); [|lia].
  destruct Hcase as [?|Hone]; [done|]. lia.
- unfold w2. cbn [heap]. by rewrite Hrows3.
Qed.

(** On those discs the regenerated joined chapters end exactly on the
    frame count when there is a menu segment, and one frame past it when
    there is none. *)
Lemma strict_mode_final_boundary clip ifo_info idx_info w t menu w1 final :
Forall valid_boundaries (chapters ifo_info) ->
chapters ifo_info <> [] ->
first_pass clip ifo_info idx_info w = Ok ((t, menu), w1) ->
final_boundary t w1 = Ok (final, w1) ->
Z.of_nat (length clip) < final ->
menu <> 0 \/ length (chapters ifo_info) = 1%nat ->
exists t' w2,
  split_titles true clip ifo_info idx_info w = Ok (t', w2)
  /\ final_boundary t' w2
     = Ok (if menu =? 0 then Z.of_nat (length clip) + 1
           else Z.of_nat (length clip), w2).
Proof.
intros Hvalid Htitles Hfp Hfin Hover Hcase.
destruct (strict_mode_result _ _ _ _ _ _ _ _ Hvalid Htitles Hfp Hfin Hover Hcase)
  as (t' & w2 & X & Hsplit & Hspl & Hloc & HX & Hlast & Hheap).
destruct (first_pass_fits _ _ _ _ _ _ _ Hvalid Hfp) as (Hmenu & _).
exists t', w2. split; [done|].
set (later := (length (chapters ifo_info) - 1)%nat) in *.
assert (Z.of_nat (length (chapters ifo_info)) = Z.of_nat later + 1) as Htitles'
  by (unfold later; destruct (chapters ifo_info); [done|cbn [length]; lia]).
unfold final_boundary. erewrite mbind_run; cycle 1.
{ apply deref_run. rewrite Hloc, Hheap.
  apply list_lookup_insert_eq. rewrite length_app. cbn [length]. lia. }
rewrite py_getitem_last0 by (by apply foldl_merge_step_nonempty).
rewrite last0_foldl_merge_step; cycle 1.
{ apply Forall_app. split.
  - apply Forall_replicate, valid_boundaries_placeholder.
  - destruct (menu =? 0); [constructor|].
    constructor; [apply valid_boundaries_menu; lia|constructor]. }
rewrite map_app, sumZ_app, sumZ_replicate_placeholder, Hlast.
cbn [lift]. f_equal. f_equal.
destruct (Z.eqb_spec menu 0) as [->|_].
- destruct Hcase as [?|Hone]; [done|]. unfold sumZ. cbn. lia.
- unfold sumZ, last0. cbn. lia.
Qed.

(** Without menu segment and with two or more titles the second split asks
    for the frame behind the last one: the last placeholder title starts at
    the decoded frame count, its slice is empty, and the correction is
    refused. *)
Lemma strict_mode_refused clip ifo_info idx_info w t menu w1 final :
Forall valid_boundaries (chapters ifo_info) ->
first_pass clip ifo_info idx_info w = Ok ((t, menu), w1) ->
final_boundary t w1 = Ok (final, w1) ->
Z.of_nat (length clip) < final ->
menu = 0 -> (2 <= length (chapters ifo_info))%nat ->
split_titles true clip ifo_info idx_info w = Raise VSError.
Proof.
intros Hvalid Hfp Hfin Hover Hm0 Htwo.
assert (chapters ifo_info <> []) as Htitles
  by (destruct (chapters ifo_info); [cbn in Htwo; lia|done]).
destruct (strict_mode_walk _ _ _ _ _ _ _ _ Hvalid Htitles Hfp Hfin Hover)
  as (kept & Hrun).
destruct (first_pass_fits _ _ _ _ _ _ _ Hvalid Hfp) as (Hmenu & Hfit).
cbv zeta in Hrun. rewrite Hrun. clear Hrun.
set (N := Z.of_nat (length clip)) in *.
set (later := (length (chapters ifo_info) - 1)%nat) in *.
set (clamp := N - menu - Z.of_nat (length (chapters ifo_info))
              - (if menu =? 0 then 0 else 1) + 2) in *.
set (X := kept ++ [clamp]) in *.
set (rows2 := X :: replicate later [0; 1]) in *.
assert (Z.of_nat (length (chapters ifo_info)) <= N - menu) as Hroom.
{ rewrite <- (length_map last0). apply titles_fit_length; [done|].
  by destruct (chapters ifo_info). }
assert (map last0 rows2 = clamp :: replicate later 1) as Hlasts.
{ unfold rows2. cbn [map]. unfold X. by rewrite last0_snoc, last0_placeholders. }
apply mbind_raise.
rewrite (split_chapters_clips_spec clip _ rows2); cycle 1.
{ cbn [heap]. pose proof (rows_at_seq (heap w1) rows2 []) as H.
  by rewrite app_nil_r in H. }
{ constructor; [unfold X; by destruct kept|]. apply Forall_replicate. done. }
destruct (decide _) as [H|]; [exfalso|done].
apply Forall_cons in H as [_ [H _]%Forall_app].
subst menu. change (0 =? 0) with true in *. cbv iota in *.
apply title_clips_nonempty in H; [|lia|].
- rewrite Hlasts in H. cbn [titles_fit] in H.
  apply andb_prop in H as [_ H]. apply titles_fit_placeholders in H.
  unfold clamp, later in H. fold N in H. lia.
- rewrite Hlasts. constructor; [unfold clamp; lia|]. apply Forall_replicate. lia.
Qed.

End StrictOutcome.

(** * Further properties *)

(** ** Indexing: bounds *)

Lemma py_getitem_in_range {A} (l : list A) (i : Z) :
  0 <= i < Z.of_nat (length l) ->
  exists x, l !! Z.to_nat i = Some x /\ py_getitem l i = Ok x.
Proof.
  intros Hi. destruct (lookup_lt_is_Some_2 l (Z.to_nat i)) as [x Hx]; [lia|].
  exists x. split; [done|]. rewrite <- (Z2Nat.id i) by lia.
  by apply py_getitem_nat.
Qed.

Lemma py_getitem_lookup {A} (l : list A) (i : Z) (x : A) :
  0 <= i -> l !! Z.to_nat i = Some x -> py_getitem l i = Ok x.
Proof.
  intros Hi Hx. rewrite <- (Z2Nat.id i) by lia. by apply py_getitem_nat.
Qed.

Lemma py_getitem_ge {A} (l : list A) (i : Z) :
  Z.of_nat (length l) <= i -> py_getitem l i = Raise IndexError.
Proof.
  intros Hi. unfold py_getitem.
  destruct (Z.ltb_spec i 0) as [?|_]; [lia|].
  destruct (Z.ltb_spec i (Z.of_nat (length l))) as [?|_]; [lia|].
  by rewrite andb_false_r.
Qed.

Lemma py_getitem_lt {A} (l : list A) (i : Z) :
  i < - Z.of_nat (length l) -> py_getitem l i = Raise IndexError.
Proof.
  intros Hi. unfold py_getitem.
  destruct (Z.ltb_spec i 0) as [_|?]; [|lia].
  destruct (Z.leb_spec 0 (i + Z.of_nat (length l))) as [?|_]; [lia|]. done.
Qed.

(** A negative index counts from the end. *)
Lemma py_getitem_neg {A} (l : list A) (i : Z) :
  - Z.of_nat (length l) <= i < 0 ->
  py_getitem l i = py_getitem l (Z.of_nat (length l) + i).
Proof.
  intros Hi. unfold py_getitem.
  destruct (Z.ltb_spec i 0) as [_|?]; [|lia].
  destruct (Z.ltb_spec (Z.of_nat (length l) + i) 0) as [?|_]; [lia|].
  by rewrite (Z.add_comm i).
Qed.

Lemma py_getitem_raises {A} (l : list A) (i : Z) e :
  py_getitem l i = Raise e -> e = IndexError.
Proof.
  unfold py_getitem. destruct (_ && _); [|by intros [= <-]].
  destruct (l !! _); [done|by intros [= <-]].
Qed.

(** ** Chapter-range resolution: general boundaries *)

Section ResolverGeneral.

Context {Frame : Type}.
Implicit Types (h : list (list Z)) (t : Titles Frame) (clip : list Frame)
  (ranges : list Z).

Lemma get_title_QInt_lookup h t clip_index ranges clip c lo hi :
  select_title h t clip_index = Ok (ranges, clip) ->
  0 <= c ->
  ranges !! Z.to_nat c = Some lo ->
  ranges !! Z.to_nat (c + 1) = Some hi ->
  get_title h t clip_index (QInt c) = trimmed clip lo hi.
Proof.
  intros Hsel Hc Hlo Hhi. cbn [get_title]. rewrite Hsel. cbn [rbind fst snd].
  pose proof (lookup_lt_Some _ _ _ Hhi) as Hlen.
  destruct (py_getitem_in_range ranges 0) as (r0 & Hr0 & ->); [lia|].
  rewrite py_getitem_last.
  destruct (last ranges) as [rl|] eqn:Hlast;
    [|apply last_None in Hlast; subst; cbn in Hlen; lia].
  cbn [rbind].
  destruct (Z.eqb_spec c (Z.of_nat (length ranges) - 1)) as [?|_]; [lia|].
  destruct (Z.eqb_spec c 0) as [->|Hc0].
  - rewrite (py_getitem_lookup ranges 1 hi) by (done || lia). cbn [rbind].
    change (Z.to_nat 0) with 0%nat in *. by simplify_eq.
  - destruct (Z.ltb_spec c 0) as [?|_]; [lia|].
    rewrite (py_getitem_lookup ranges c lo) by done. cbn [rbind].
    by rewrite (py_getitem_lookup ranges (c + 1) hi) by (done || lia).
Qed.

(** X1. a chapter index [c] with non-negative boundaries on both sides
    resolves to the frames from [ranges[c]] up to [ranges[c+1]]: they are
    returned when the chapter is not empty and starts inside the selected
    sequence, and the request is refused otherwise. *)
Theorem get_title_chapter_in_range h t clip_index ranges clip c lo hi :
  select_title h t clip_index = Ok (ranges, clip) ->
  0 <= c ->
  ranges !! Z.to_nat c = Some lo ->
  ranges !! Z.to_nat (c + 1) = Some hi ->
  0 <= lo -> 0 <= hi ->
  get_title h t clip_index (QInt c)
  = frames_between clip (Z.to_nat lo) (Z.to_nat hi).
Proof.
  intros Hsel Hc Hlo Hhi Hlo0 Hhi0. rewrite <- trimmed_between by done.
  by apply (get_title_QInt_lookup h t clip_index ranges).
Qed.

End ResolverGeneral.

Lemma get_title_chapter_in_range_witness :
  get_title sample_heap sample_titles None (QInt 1) = Ok (TClip (seq 100 100)).
Proof.
  rewrite (get_title_chapter_in_range sample_heap sample_titles None
             [0; 100; 200; 300] (decoded 300) 1 100 200).
  - vm_compute. reflexivity.
  - reflexivity.
  - lia.
  - reflexivity.
  - reflexivity.
  - lia.
  - lia.
Defined.

Lemma py_getitem_total {A} (l : list A) (i : Z) :
  - Z.of_nat (length l) <= i < Z.of_nat (length l) ->
  exists x, py_getitem l i = Ok x.
Proof.
  intros Hi. destruct (Z.ltb_spec i 0).
  - rewrite py_getitem_neg by lia.
    destruct (py_getitem_in_range l (Z.of_nat (length l) + i)) as (x & _ & ->);
      [lia|eauto].
  - destruct (py_getitem_in_range l i) as (x & _ & ->); [lia|eauto].
Qed.

Lemma py_getitem_elem_of {A} (l : list A) (i : Z) x :
  py_getitem l i = Ok x -> x ∈ l.
Proof.
  unfold py_getitem. destruct (_ && _); [|done].
  destruct (l !! _) eqn:Hl; [|done]. intros [= <-].
  by eapply list_elem_of_lookup_2.
Qed.

Lemma py_getitem_total_in {A} (l : list A) (i : Z) :
  - Z.of_nat (length l) <= i < Z.of_nat (length l) ->
  exists x, py_getitem l i = Ok x /\ x ∈ l.
Proof.
  intros Hi. destruct (py_getitem_total l i Hi) as [x Hx].
  exists x. split; [done|]. by eapply py_getitem_elem_of.
Qed.

Section ResolverBounds.

Context {Frame : Type}.
Implicit Types (h : list (list Z)) (t : Titles Frame) (clip : list Frame)
  (ranges : list Z).

(** X2. a negative chapter index counts chapters from the end: [c] and
    [len(ranges) - 1 + c] resolve alike. *)
Theorem get_title_negative_chapter h t clip_index ranges clip c :
  select_title h t clip_index = Ok (ranges, clip) ->
  1 - Z.of_nat (length ranges) <= c < 0 ->
  get_title h t clip_index (QInt c)
  = get_title h t clip_index (QInt (Z.of_nat (length ranges) - 1 + c)).
Proof.
  intros Hsel Hc. cbn [get_title]. rewrite Hsel. cbn [rbind fst snd].
  set (n := Z.of_nat (length ranges)) in *.
  destruct (py_getitem ranges 0) as [r0|] eqn:Hr0; [|done].
  destruct (py_getitem ranges (-1)) as [rl|]; [|done]. cbn [rbind].
  destruct (Z.eqb_spec c (n - 1)) as [?|_]; [lia|].
  destruct (Z.eqb_spec c 0) as [?|_]; [lia|].
  destruct (Z.ltb_spec c 0) as [_|?]; [|lia].
  destruct (Z.eqb_spec (n - 1 + c) (n - 1)) as [?|_]; [lia|].
  destruct (Z.ltb_spec (n - 1 + c) 0) as [?|_]; [lia|].
  destruct (Z.eqb_spec (n - 1 + c) 0) as [Hk|_].
  - rewrite Hk, Hr0. cbn [rbind]. by replace (n + c) with 1 by lia.
  - by replace (n - 1 + c + 1) with (n + c) by lia.
Qed.

(** X3. the index of the final boundary is accepted as a name of the last
    chapter. *)
Theorem get_title_final_boundary_index h t clip_index ranges clip :
  select_title h t clip_index = Ok (ranges, clip) ->
  (2 <= length ranges)%nat ->
  get_title h t clip_index (QInt (Z.of_nat (length ranges) - 1))
  = get_title h t clip_index (QInt (Z.of_nat (length ranges) - 2)).
Proof.
  intros Hsel Hlen. cbn [get_title]. rewrite Hsel. cbn [rbind fst snd].
  set (n := Z.of_nat (length ranges)) in *.
  assert (2 <= n) as Hn by lia.
  destruct (py_getitem ranges 0) as [r0|] eqn:Hr0; [|done].
  destruct (py_getitem ranges (-1)) as [rl|] eqn:Hrl; [|done]. cbn [rbind].
  rewrite Z.eqb_refl.
  destruct (Z.eqb_spec (n - 2) (n - 1)) as [?|_]; [lia|].
  destruct (Z.ltb_spec (n - 2) 0) as [?|_]; [lia|].
  rewrite (py_getitem_neg ranges (-2)) by lia. fold n.
  rewrite (py_getitem_neg ranges (-1)) in Hrl by lia. fold n in Hrl.
  replace (n + -2) with (n - 2) by lia.
  replace (n + -1) with (n - 1) in Hrl by lia.
  destruct (Z.eqb_spec (n - 2) 0) as [Hk|_].
  - rewrite Hk, Hr0. cbn [rbind]. replace 1 with (n - 1) by lia.
    by rewrite Hrl.
  - replace (n - 2 + 1) with (n - 1) by lia. rewrite Hrl.
    by destruct (py_getitem ranges (n - 2)).
Qed.

Lemma trimmed_not_index_error clip lo hi : trimmed clip lo hi <> Raise IndexError.
Proof. unfold trimmed, vs_slice. by destruct (py_slice clip _ _). Qed.

(** X4. with at least two boundaries an integer query raises [IndexError]
    exactly for the [c] outside [1 - 2 * len(ranges), len(ranges) - 1];
    for a [c] inside, the query is the slice of the selected sequence
    between two of the boundaries. *)
Theorem get_title_chapter_bounds h t clip_index ranges clip c :
  select_title h t clip_index = Ok (ranges, clip) ->
  (2 <= length ranges)%nat ->
  (1 - 2 * Z.of_nat (length ranges) <= c <= Z.of_nat (length ranges) - 1 ->
   exists lo hi, lo ∈ ranges /\ hi ∈ ranges
                 /\ get_title h t clip_index (QInt c) = trimmed clip lo hi)
  /\ (get_title h t clip_index (QInt c) = Raise IndexError
      <-> ~ (1 - 2 * Z.of_nat (length ranges) <= c <= Z.of_nat (length ranges) - 1)).
Proof.
  intros Hsel Hlen.
  set (n := Z.of_nat (length ranges)) in *.
  assert (2 <= n) as Hn by lia.
  assert (1 - 2 * n <= c <= n - 1 ->
          exists lo hi, lo ∈ ranges /\ hi ∈ ranges
                        /\ get_title h t clip_index (QInt c) = trimmed clip lo hi)
    as Hin.
  { intros [Hlow Hup]. cbn [get_title]. rewrite Hsel. cbn [rbind fst snd]. fold n.
    destruct (py_getitem_total_in ranges 0) as (r0 & -> & Hr0); [lia|].
    destruct (py_getitem_total_in ranges (-1)) as (rl & -> & Hrl); [lia|].
    cbn [rbind].
    destruct (Z.eqb_spec c (n - 1)) as [_|Hne].
    { destruct (py_getitem_total_in ranges (-2)) as (x & -> & Hx); [lia|].
      cbn [rbind]. eauto. }
    destruct (Z.eqb_spec c 0) as [_|Hne0].
    { destruct (py_getitem_total_in ranges 1) as (x & -> & Hx); [lia|].
      cbn [rbind]. eauto. }
    destruct (Z.ltb_spec c 0) as [Hneg|Hpos].
    + destruct (py_getitem_total_in ranges (n - 1 + c)) as (x & -> & Hx); [lia|].
      destruct (py_getitem_total_in ranges (n + c)) as (y & -> & Hy); [lia|].
      cbn [rbind]. eauto.
    + destruct (py_getitem_total_in ranges c) as (x & -> & Hx); [lia|].
      destruct (py_getitem_total_in ranges (c + 1)) as (y & -> & Hy); [lia|].
      cbn [rbind]. eauto. }
  split; [done|]. split.
  - intros Herr Hc. destruct (Hin Hc) as (lo & hi & _ & _ & Heq).
    rewrite Heq in Herr. by apply trimmed_not_index_error in Herr.
  - intros Hout. cbn [get_title]. rewrite Hsel. cbn [rbind fst snd]. fold n.
    destruct (py_getitem_total ranges 0) as [r0 ->]; [lia|].
    destruct (py_getitem_total ranges (-1)) as [rl ->]; [lia|]. cbn [rbind].
    destruct (Z.eqb_spec c (n - 1)) as [?|_]; [lia|].
    destruct (Z.eqb_spec c 0) as [?|_]; [lia|].
    destruct (Z.ltb_spec c 0) as [?|?].
    + by rewrite py_getitem_lt by lia.
    + by rewrite py_getitem_ge by lia.
Qed.

(** X5. a pair of non-negative chapter indices is inclusive on both sides:
    [(s, e)] asks for the frames from the start of chapter [s] to the end of
    chapter [e]; the pair [(None, None)] for those from the first to the
    last boundary. The frames are returned when the range is not empty and
    starts inside the selected sequence. *)
Theorem get_title_pair_in_range h t clip_index ranges clip :
  select_title h t clip_index = Ok (ranges, clip) ->
  (forall s e lo hi,
      0 <= s -> 0 <= e ->
      ranges !! Z.to_nat s = Some lo ->
      ranges !! Z.to_nat (e + 1) = Some hi ->
      0 <= lo -> 0 <= hi ->
      get_title h t clip_index (QTuple (Some s) (Some e))
      = frames_between clip (Z.to_nat lo) (Z.to_nat hi))
  /\ (forall lo hi,
        ranges !! 0%nat = Some lo -> last ranges = Some hi ->
        0 <= lo -> 0 <= hi ->
        get_title h t clip_index (QTuple None None)
        = frames_between clip (Z.to_nat lo) (Z.to_nat hi)).
Proof.
  intros Hsel. split.
  - intros s e lo hi Hs He Hlo Hhi Hlo0 Hhi0. rewrite <- trimmed_between by done.
    cbn [get_title]. rewrite Hsel. cbn [rbind fst snd].
    destruct (Z.ltb_spec s 0) as [?|_]; [lia|].
    destruct (Z.ltb_spec e 0) as [?|_]; [lia|].
    rewrite (py_getitem_lookup ranges s lo) by done. cbn [rbind].
    by rewrite (py_getitem_lookup ranges (e + 1) hi) by (done || lia).
  - intros lo hi Hlo Hhi Hlo0 Hhi0. rewrite <- trimmed_between by done.
    cbn [get_title]. rewrite Hsel. cbn [rbind fst snd].
    rewrite (py_getitem_lookup ranges 0 lo) by done. cbn [rbind].
    rewrite last_lookup in Hhi.
    pose proof (lookup_lt_Some _ _ _ Hlo) as Hlen.
    rewrite (py_getitem_lookup ranges _ hi); [done|lia|].
    by replace (Z.to_nat (Z.of_nat (length ranges) - 1))
      with (pred (length ranges)) by lia.
Qed.

(** X6. negative bounds of a pair. A negative start [s] is the chapter
    [len(ranges) - 1 + s]; a negative end [e] stops where the chapter
    [len(ranges) - 1 + e] starts, which is the pair with the inclusive end
    [len(ranges) - 2 + e]. *)
Theorem get_title_pair_negative_bounds h t clip_index ranges clip :
  select_title h t clip_index = Ok (ranges, clip) ->
  (forall s stop,
      1 - Z.of_nat (length ranges) <= s < 0 ->
      get_title h t clip_index (QTuple (Some s) stop)
      = get_title h t clip_index
          (QTuple (Some (Z.of_nat (length ranges) - 1 + s)) stop))
  /\ (forall start e,
        2 - Z.of_nat (length ranges) <= e < 0 ->
        get_title h t clip_index (QTuple start (Some e))
        = get_title h t clip_index
            (QTuple start (Some (Z.of_nat (length ranges) - 2 + e)))).
Proof.
  intros Hsel. split.
  - intros s stop Hs. cbn [get_title]. rewrite Hsel. cbn [rbind fst snd].
    destruct (Z.ltb_spec s 0) as [_|?]; [|lia].
    by destruct (Z.ltb_spec (Z.of_nat (length ranges) - 1 + s) 0) as [?|_]; [lia|].
  - intros start e He. cbn [get_title]. rewrite Hsel. cbn [rbind fst snd].
    destruct (Z.ltb_spec e 0) as [_|?]; [|lia].
    destruct (Z.ltb_spec (Z.of_nat (length ranges) - 2 + e) 0) as [?|_]; [lia|].
    by replace (Z.of_nat (length ranges) - 2 + e + 1)
      with (Z.of_nat (length ranges) - 1 + e) by lia.
Qed.

Lemma get_title_QList_iff h t clip_index ranges clip l rs :
  select_title h t clip_index = Ok (ranges, clip) ->
  get_title h t clip_index (QList l) = Ok (TList rs)
  <-> Forall2 (fun q r => get_title h t clip_index q = Ok r) l rs.
Proof.
  intros Hsel. cbn [get_title]. rewrite Hsel. cbn [rbind fst snd].
  match goal with
  | |- rbind (?f l) _ = _ <-> _ =>
      assert (forall l rs, f l = Ok rs
                <-> Forall2 (fun q r => get_title h t clip_index q = Ok r) l rs)
        as Heach
  end.
  { clear l rs. induction l as [|q l IH]; intros rs.
    - split.
      + intros [= <-]. constructor.
      + intros ->%Forall2_nil_inv_l. done.
    - split.
      + destruct (get_title h t clip_index q) as [r|] eqn:Hq; [|done].
        cbn [rbind].
        match goal with
        | |- rbind ?x _ = _ -> _ => destruct x as [rs'|] eqn:Hl
        end; [|done].
        cbn [rbind]. intros [= <-]. constructor; [done|]. by apply IH.
      + intros (r & rs' & Hq & Hl & ->)%Forall2_cons_inv_l.
        rewrite Hq. cbn [rbind]. apply IH in Hl. rewrite Hl. done. }
  split.
  - match goal with
    | |- rbind ?x _ = _ -> _ => destruct x as [rs'|] eqn:Hl
    end; [|done].
    cbn [rbind]. intros [= <-]. by apply Heach.
  - intros H%Heach. rewrite H. done.
Qed.

(** X7. a list of queries is resolved element by element against the same
    selection, in order. *)
Theorem get_title_list h t clip_index ranges clip l rs :
  select_title h t clip_index = Ok (ranges, clip) ->
  get_title h t clip_index (QList l) = Ok (TList rs)
  <-> Forall2 (fun q r => get_title h t clip_index q = Ok r) l rs.
Proof. apply get_title_QList_iff. Qed.

End ResolverBounds.

Lemma get_title_negative_chapter_witness :
  get_title sample_heap sample_titles None (QInt (-2))
  = get_title sample_heap sample_titles None (QInt 1).
Proof.
  refine (get_title_negative_chapter sample_heap sample_titles None
            [0; 100; 200; 300] (decoded 300) (-2) _ _).
  - reflexivity.
  - cbn. lia.
Defined.

Lemma get_title_final_boundary_index_witness :
  get_title sample_heap sample_titles None (QInt 3)
  = get_title sample_heap sample_titles None (QInt 2).
Proof.
  refine (get_title_final_boundary_index sample_heap sample_titles None
            [0; 100; 200; 300] (decoded 300) _ _).
  - reflexivity.
  - cbn. lia.
Defined.

Lemma get_title_chapter_bounds_witness :
  get_title sample_heap sample_titles None (QInt 4) = Raise IndexError
  /\ get_title sample_heap sample_titles None (QInt (-8)) = Raise IndexError
  /\ get_title sample_heap sample_titles None (QInt (-4)) = Raise VSError.
Proof.
  split; [|split].
  - apply (get_title_chapter_bounds sample_heap sample_titles None
             [0; 100; 200; 300] (decoded 300) 4); [reflexivity|cbn; lia|cbn; lia].
  - apply (get_title_chapter_bounds sample_heap sample_titles None
             [0; 100; 200; 300] (decoded 300) (-8)); [reflexivity|cbn; lia|cbn; lia].
  - destruct (get_title_chapter_bounds sample_heap sample_titles None
                [0; 100; 200; 300] (decoded 300) (-4)) as [Hin _];
      [reflexivity|cbn; lia|].
    destruct Hin as (lo & hi & _ & _ & _); [cbn; lia|].
    vm_compute. reflexivity.
Defined.

Lemma get_title_pair_in_range_witness :
  get_title sample_heap sample_titles None (QTuple (Some 0) (Some 1))
  = Ok (TClip (seq 0 200))
  /\ get_title sample_heap sample_titles None (QTuple (Some 2) (Some 0))
     = Raise VSError.
Proof.
  destruct (get_title_pair_in_range sample_heap sample_titles None
              [0; 100; 200; 300] (decoded 300)) as [H _]; [reflexivity|].
  split.
  - rewrite (H 0 1 0 200); [vm_compute; reflexivity|lia|lia|reflexivity|reflexivity|lia|lia].
  - rewrite (H 2 0 200 100); [vm_compute; reflexivity|lia|lia|reflexivity|reflexivity|lia|lia].
Defined.

Lemma get_title_pair_negative_bounds_witness :
  get_title sample_heap sample_titles None (QTuple (Some 1) (Some (-1)))
  = get_title sample_heap sample_titles None (QTuple (Some 1) (Some 1)).
Proof.
  destruct (get_title_pair_negative_bounds sample_heap sample_titles None
              [0; 100; 200; 300] (decoded 300)) as [_ H]; [reflexivity|].
  apply (H (Some 1) (-1)). cbn. lia.
Defined.

Lemma get_title_list_witness :
  get_title sample_heap sample_titles None (QList [QInt 0; QNone])
  = Ok (TList [TClip (seq 0 100); TClip (decoded 300)]).
Proof.
  apply (get_title_list sample_heap sample_titles None [0; 100; 200; 300]
           (decoded 300)); [reflexivity|].
  repeat constructor.
Defined.

(** ** Chapter extraction: shape, totals, errors *)

Section ExtractorMore.

Variable FRAMERATE : Z -> option Fraction.

Lemma chain_step_ok_inv st prog st' :
  chain_step FRAMERATE st prog = Ok st' ->
  accepted_chain FRAMERATE prog = true
  /\ exists pb f,
       head (playback_times prog) = Some pb
       /\ FRAMERATE (fps pb) = Some f
       /\ st' = (f, snd st
                    ++ [0 :: map (playback_frames
                                    (if numerator f =? 30000 then 30 else 25))
                                 (playback_times prog)]).
Proof.
  unfold chain_step, accepted_chain.
  destruct (playback_times prog) as [|pb pts]; [done|].
  cbn [map]. rewrite py_getitem_head.
  destruct (forallb _ _) eqn:Hall; [|done]. cbn [rbind head].
  destruct (FRAMERATE (fps pb)) as [f|] eqn:Hf; [|done].
  intros [= <-]. split; [|eauto 6].
  cbn [forallb] in Hall. apply andb_prop in Hall as [_ Hall].
  apply andb_true_intro. split; [|apply bool_decide_eq_true; eauto].
  rewrite forallb_forall in *. intros c Hc.
  apply Hall, bool_decide_eq_true in Hc. cbn in Hc. injection Hc as ->.
  apply Z.eqb_refl.
Qed.

Lemma chain_step_rejected st prog :
  accepted_chain FRAMERATE prog = false ->
  chain_step FRAMERATE st prog = Raise (rejection prog).
Proof.
  intros Hrej. unfold rejection.
  destruct (playback_times prog) as [|pb pts] eqn:Hpts.
  - unfold chain_step. rewrite Hpts. done.
  - destruct (distinct_rate_codes prog) eqn:Hd.
    + by apply chain_step_distinct_codes.
    + destruct (chain_step FRAMERATE st prog) as [st'|e] eqn:Hstep.
      * apply chain_step_ok_inv in Hstep as [Hacc _]. congruence.
      * unfold chain_step in Hstep. rewrite Hpts in Hstep. cbn [map] in Hstep.
        rewrite py_getitem_head in Hstep.
        destruct (forallb _ _) eqn:Hall.
        -- cbn [rbind] in Hstep. destruct (FRAMERATE (fps pb)); [done|].
           by injection Hstep as <-.
        -- exfalso. apply not_true_iff_false in Hall. apply Hall.
           apply forallb_forall. intros c Hc. apply bool_decide_eq_true. cbn.
           f_equal. unfold distinct_rate_codes in Hd. rewrite Hpts in Hd.
           cbn [map existsb] in Hd. apply orb_false_elim in Hd as [Hd _].
           rewrite Z.eqb_refl in Hd. cbn [negb orb] in Hd.
           destruct Hc as [<-|Hc]; [done|].
           apply not_true_iff_false in Hd.
           destruct (Z.eqb_spec (fps pb) c) as [?|Hne]; [done|].
           exfalso. apply Hd. apply existsb_exists. exists c. split; [done|].
           by apply negb_true_iff, Z.eqb_neq.
Qed.

Lemma chain_loop_ok_inv progs : forall st st',
  chain_loop FRAMERATE st progs = Ok st' ->
  forallb (accepted_chain FRAMERATE) progs = true
  /\ snd st' = snd st ++ map (fun prog =>
         match head (playback_times prog) with
         | Some pb =>
             match FRAMERATE (fps pb) with
             | Some f => 0 :: map (playback_frames
                                     (if numerator f =? 30000 then 30 else 25))
                                  (playback_times prog)
             | None => []
             end
         | None => []
         end) progs
  /\ match last progs with
     | None => fst st' = fst st
     | Some prog => exists pb, head (playback_times prog) = Some pb
                               /\ FRAMERATE (fps pb) = Some (fst st')
     end.
Proof.
  induction progs as [|prog progs IH]; intros st st'; cbn [chain_loop].
  - intros [= <-]. cbn. by rewrite app_nil_r.
  - destruct (chain_step FRAMERATE st prog) as [st1|] eqn:Hstep; [|done].
    cbn [rbind]. intros Hloop.
    apply chain_step_ok_inv in Hstep as (Hacc & pb & f & Hpb & Hf & ->).
    apply IH in Hloop as (Hall & Hrows & Hlast). cbn [fst snd] in *.
    split; [|split].
    + cbn [forallb]. by rewrite Hacc, Hall.
    + rewrite Hrows. cbn [map]. rewrite Hpb, Hf, <- app_assoc. done.
    + destruct progs as [|prog' progs'].
      * cbn in *. rewrite Hlast. eauto.
      * rewrite last_cons_cons.
        destruct (last (prog' :: progs')) eqn:Hl; [exact Hlast|].
        by apply last_None in Hl.
Qed.

End ExtractorMore.







(** X10. [get_ifo_info] returns a result exactly when every walked chain has
    a playback time, a single frame-rate code, and a code that the table
    knows. *)
Theorem get_ifo_info_returns_iff FRAMERATE listing :
  (exists info, get_ifo_info FRAMERATE listing = Ok info)
  <-> forallb (accepted_chain FRAMERATE) (walked_chains listing) = true.
Proof.
  split; [|apply get_ifo_info_returns].
  intros [info Hinfo]. unfold get_ifo_info in Hinfo.
  destruct (chain_loop _ _ _) as [st|] eqn:Hloop; [|done].
  by apply chain_loop_ok_inv in Hloop as (Hall & _).
Qed.

(** X11. the first walked chain that is not accepted decides the exception:
    [IndexError] for a chain without playback times, the variable frame
    rate [ValueError] for mixed codes, [KeyError] for a code missing from
    the table. *)
Theorem get_ifo_info_first_rejected FRAMERATE listing pre prog post :
  walked_chains listing = pre ++ prog :: post ->
  forallb (accepted_chain FRAMERATE) pre = true ->
  accepted_chain FRAMERATE prog = false ->
  get_ifo_info FRAMERATE listing = Raise (rejection prog).
Proof.
  intros Hw Hpre Hrej. unfold get_ifo_info.
  unfold walked_chains in Hw. rewrite Hw, chain_loop_app.
  destruct (chain_loop_accepted FRAMERATE
              ({| numerator := 30000; denominator := 1001 |}, []) pre Hpre)
    as [st ->].
  cbn [rbind chain_loop]. by rewrite chain_step_rejected.
Qed.

Lemma get_ifo_info_first_rejected_witness :
  get_ifo_info dvd_framerate
    (single_ifo [steady_chain; {| playback_times := [time 2 0 0 1 0] |}; mixed_chain])
  = Raise KeyError.
Proof.
  refine (get_ifo_info_first_rejected dvd_framerate _ [steady_chain]
            {| playback_times := [time 2 0 0 1 0] |} [mixed_chain] _ _ _);
    reflexivity.
Defined.

(** X12. the frame rate returned is the table entry of the last walked
    chain, and 30000/1001 when no chain is walked. *)
Theorem get_ifo_info_fps FRAMERATE listing info :
  get_ifo_info FRAMERATE listing = Ok info ->
  match last (walked_chains listing) with
  | None => ifo_fps info = ntsc
  | Some prog => exists pb, head (playback_times prog) = Some pb
                            /\ FRAMERATE (fps pb) = Some (ifo_fps info)
  end.
Proof.
  unfold get_ifo_info. intros Hinfo.
  destruct (chain_loop _ _ _) as [st|] eqn:Hloop; [|done].
  injection Hinfo as <-. cbn [ifo_fps].
  by apply chain_loop_ok_inv in Hloop as (_ & _ & Hlast).
Qed.

Lemma get_ifo_info_fps_witness :
  exists pb, head (playback_times steady_chain) = Some pb
             /\ dvd_framerate (fps pb) = Some ntsc.
Proof.
  refine (get_ifo_info_fps dvd_framerate (single_ifo [steady_chain])
            {| chapters := [[0; 100; 1900]]; ifo_fps := ntsc; m_ifos := false |} _).
  vm_compute. reflexivity.
Defined.

(** X13. directory entries named VIDEO_TS never contribute, and on a disc with
    at least two other IFO files the first program chain of every file is
    never read: two listings that agree on the names and on the chains from
    the second one on give the same answer. *)
Theorem get_ifo_info_ignores_menu_chains FRAMERATE listing :
  get_ifo_info FRAMERATE (filter (fun f => stem f <> "VIDEO_TS") listing)
  = get_ifo_info FRAMERATE listing
  /\ forall listing',
       Forall2 same_titles listing listing' ->
       (2 <= length (filter (fun f => stem f <> "VIDEO_TS") listing))%nat ->
       get_ifo_info FRAMERATE listing = get_ifo_info FRAMERATE listing'.
Proof.
  split.
  - unfold get_ifo_info. rewrite list_filter_filter.
    assert (filter (fun f => stem f <> "VIDEO_TS" /\ stem f <> "VIDEO_TS") listing
            = filter (fun f => stem f <> "VIDEO_TS") listing) as ->; [|done].
    apply list_filter_iff. tauto.
  - intros listing' Hsame Hlen. unfold get_ifo_info.
    assert (Forall2 same_titles
              (filter (fun f => stem f <> "VIDEO_TS") listing)
              (filter (fun f => stem f <> "VIDEO_TS") listing')) as Hf.
    { apply Forall2_filter; [|done]. intros f g [Hst _]. by rewrite Hst. }
    pose proof (Forall2_length _ _ _ Hf) as Hl. rewrite <- Hl.
    assert (collect_program_chains (filter (fun f => stem f <> "VIDEO_TS") listing)
            = collect_program_chains (filter (fun f => stem f <> "VIDEO_TS") listing'))
      as ->; [|done].
    unfold collect_program_chains. rewrite <- Hl.
    rewrite bool_decide_eq_true_2 by lia. f_equal.
    clear Hl Hlen. induction Hf as [|f g l l' [_ Hfg] _ IH]; [done|].
    cbn [map]. rewrite !py_slice_from by lia. change (Z.to_nat 1) with 1%nat.
    rewrite Hfg. f_equal. exact IH.
Qed.

Lemma get_ifo_info_ignores_menu_chains_witness :
  get_ifo_info dvd_framerate
    [ {| stem := "VTS_01_0"; program_chains := [mixed_chain; steady_chain] |};
      {| stem := "VTS_02_0"; program_chains := [empty_chain] |} ]
  = get_ifo_info dvd_framerate
      [ {| stem := "VTS_01_0"; program_chains := [steady_chain; steady_chain] |};
        {| stem := "VTS_02_0"; program_chains := [] |} ].
Proof.
  destruct (get_ifo_info_ignores_menu_chains dvd_framerate
              [ {| stem := "VTS_01_0"; program_chains := [mixed_chain; steady_chain] |};
                {| stem := "VTS_02_0"; program_chains := [empty_chain] |} ])
    as [_ H].
  apply H.
  - repeat constructor.
  - vm_compute. lia.
Defined.

(** ** Splitting and joining: covers, counts, round trips *)

Lemma non_decreasing_app l1 l2 :
  non_decreasing l1 -> non_decreasing l2 ->
  (forall x y, x ∈ l1 -> y ∈ l2 -> x <= y) ->
  non_decreasing (l1 ++ l2).
Proof.
  intros H1 H2 H12 i j x y Hij Hx Hy.
  apply lookup_app_Some in Hx as [Hx|[Hi Hx]];
    apply lookup_app_Some in Hy as [Hy|[Hj Hy]].
  - by apply (H1 i j).
  - apply H12; by eapply list_elem_of_lookup_2.
  - apply lookup_lt_Some in Hy. lia.
  - apply (H2 (i - length l1)%nat (j - length l1)%nat); [lia|done..].
Qed.

Lemma non_decreasing_filter (P : Z -> Prop) `{!forall x, Decision (P x)} l :
  non_decreasing l -> non_decreasing (filter P l).
Proof.
  induction l as [|a l IH]; intros Hl; [done|].
  pose proof (non_decreasing_tail _ _ Hl) as Htl.
  rewrite filter_cons. destruct (decide (P a)); [|auto].
  apply non_decreasing_cons; [|auto].
  intros x [_ Hx]%list_elem_of_filter. by apply (non_decreasing_head a x l).
Qed.

Lemma non_decreasing_shift k l :
  non_decreasing l -> non_decreasing (map (fun r => r + k) l).
Proof.
  intros Hl i j x y Hij Hx Hy.
  apply list_lookup_fmap_Some in Hx as (x' & -> & Hx).
  apply list_lookup_fmap_Some in Hy as (y' & -> & Hy).
  pose proof (Hl i j x' y' Hij Hx Hy). lia.
Qed.

Lemma valid_boundaries_nonneg r x : valid_boundaries r -> x ∈ r -> 0 <= x.
Proof.
  intros [H0 Hnd] [i Hi]%list_elem_of_lookup_1.
  apply (Hnd 0%nat i 0 x); [lia|done..].
Qed.

(** One round of the joiner keeps the joined list a valid boundary list. *)
Lemma merge_step_valid m r :
  valid_boundaries m -> valid_boundaries r -> valid_boundaries (merge_step m r).
Proof.
  intros Hm Hr. pose proof (valid_boundaries_nonempty _ Hm) as Hne.
  unfold merge_step. split.
  - destruct Hm as [H0 _]. by apply lookup_app_l_Some.
  - apply non_decreasing_app.
    + by destruct Hm.
    + apply non_decreasing_shift, non_decreasing_filter. by destruct Hr.
    + intros x y Hx (z & -> & [_ Hz]%list_elem_of_filter)%list_elem_of_fmap.
      pose proof (non_decreasing_le_last m x (proj2 Hm) Hx).
      pose proof (valid_boundaries_nonneg r z Hr Hz). lia.
Qed.

Lemma foldl_merge_step_valid m rs :
  valid_boundaries m -> Forall valid_boundaries rs ->
  valid_boundaries (foldl merge_step m rs).
Proof.
  intros Hm Hrs. revert m Hm. induction Hrs as [|r rs Hr Hrs IH]; intros m Hm.
  - done.
  - cbn [foldl]. by apply IH, merge_step_valid.
Qed.

Section Covers.

Context {Frame : Type}.
Implicit Types (clip c : list Frame) (t : Titles Frame).

Lemma py_slice_glue c a x b :
  0 <= a <= x -> x <= b ->
  py_slice c (Some a) (Some x) ++ py_slice c (Some x) (Some b)
  = py_slice c (Some a) (Some b).
Proof.
  intros Hax Hxb. rewrite !py_slice_range by lia.
  replace (drop (Z.to_nat x) c)
    with (drop (Z.to_nat (x - a)) (drop (Z.to_nat a) c))
    by (rewrite drop_drop; f_equal; lia).
  rewrite take_take_drop. f_equal. lia.
Qed.

(** Consecutive slices along non-decreasing cut points glue to the slice
    from the first to the last cut point. *)
Lemma consecutive_concat c d : forall a,
  non_decreasing (a :: d) -> 0 <= a ->
  concat (map (fun se : Z * Z => py_slice c (Some (fst se)) (Some (snd se)))
              (zip (a :: d) d))
  = py_slice c (Some a) (Some (last0 (a :: d))).
Proof.
  induction d as [|x d IH]; intros a Hnd Ha.
  - cbn. rewrite py_slice_range by (unfold last0; cbn; lia).
    unfold last0. cbn. by rewrite Z.sub_diag.
  - assert (a <= x) as Hax by (apply (non_decreasing_head a x (x :: d)); [done|left]).
    assert (last0 (a :: x :: d) = last0 (x :: d)) as ->
      by (unfold last0; by rewrite last_cons_cons).
    assert (x <= last0 (x :: d)) as Hx.
    { apply non_decreasing_le_last; [by eapply non_decreasing_tail|left]. }
    change (zip (a :: x :: d) (x :: d)) with ((a, x) :: zip (x :: d) d).
    cbn [map concat fst snd].
    rewrite IH; [|by eapply non_decreasing_tail|lia].
    by apply py_slice_glue.
Qed.

(** The title slices are contiguous and cover, in order and exactly once,
    the frames that follow the menu segment up to the sum of the final
    boundaries. *)
Lemma title_clips_cover clip menu lasts :
  Forall (fun d => 0 <= d) lasts -> 0 <= menu ->
  concat (title_clips clip menu lasts)
  = take (Z.to_nat (sumZ lasts)) (drop (Z.to_nat menu) clip).
Proof.
  intros Hl Hm. unfold title_clips. cbn [accumulate].
  rewrite py_slice_drop_last, (py_slice_from (0 :: _)) by lia.
  change (Z.to_nat 1) with 1%nat. cbn [drop length].
  rewrite Nat.sub_succ, Nat.sub_0_r, drop_0, zip_with_take_l.
  rewrite py_slice_from by done.
  rewrite consecutive_concat; [|by apply accumulate_from_non_decreasing|done].
  rewrite last0_accumulate_from.
  assert (0 <= sumZ lasts) as Hsum.
  { clear -Hl. induction Hl as [|d l Hd Hl IH]; unfold sumZ in *; cbn; lia. }
  rewrite py_slice_range by lia. change (Z.to_nat 0) with 0%nat.
  rewrite drop_0. f_equal. lia.
Qed.

Lemma consecutive_each c lasts : forall a,
  Forall (fun d => 0 <= d) lasts -> 0 <= a ->
  a + sumZ lasts <= Z.of_nat (length c) ->
  map (fun se : Z * Z => Z.of_nat (length (py_slice c (Some (fst se)) (Some (snd se)))))
      (zip (a :: accumulate_from a lasts) (accumulate_from a lasts))
  = lasts.
Proof.
  induction lasts as [|x lasts IH]; intros a Hl Ha Hfit; [done|].
  apply Forall_cons in Hl as [Hx Hl].
  assert (0 <= sumZ lasts) as Hsum.
  { clear -Hl. induction Hl as [|d l Hd Hl IH']; unfold sumZ in *; cbn; lia. }
  unfold sumZ in Hfit. cbn [foldr] in Hfit. fold (sumZ lasts) in Hfit.
  cbn [accumulate_from].
  change (zip (a :: a + x :: accumulate_from (a + x) lasts)
              (a + x :: accumulate_from (a + x) lasts))
    with ((a, a + x) :: zip (a + x :: accumulate_from (a + x) lasts)
                            (accumulate_from (a + x) lasts)).
  cbn [map fst snd]. rewrite IH by (done || lia). f_equal.
  rewrite py_slice_range by lia. rewrite length_take, length_drop. lia.
Qed.

(** When the boundaries fit into the decoded sequence, every title slice
    has as many frames as the final boundary of its title. *)
Lemma title_clips_frame_counts clip menu lasts :
  Forall (fun d => 0 <= d) lasts -> 0 <= menu ->
  menu + sumZ lasts <= Z.of_nat (length clip) ->
  map (fun c => Z.of_nat (length c)) (title_clips clip menu lasts) = lasts.
Proof.
  intros Hl Hm Hfit. unfold title_clips. cbn [accumulate].
  rewrite py_slice_drop_last, (py_slice_from (0 :: _)) by lia.
  change (Z.to_nat 1) with 1%nat. cbn [drop length].
  rewrite Nat.sub_succ, Nat.sub_0_r, drop_0, zip_with_take_l.
  rewrite py_slice_from by done. rewrite map_map.
  apply (consecutive_each (drop (Z.to_nat menu) clip) lasts 0); [done|lia|].
  rewrite length_drop. lia.
Qed.

(** X14. [__split_chapters_clips] on valid boundary lists returns exactly
    when the menu segment is shorter than the decoded sequence and every
    title has a frame and starts inside what follows the menu segment. It
    then returns one slice per title, followed by the menu segment when
    there is one; no slice is empty, and the title slices are contiguous
    and cover, in order and exactly once, the frames after the menu segment
    up to the sum of the final boundaries. *)
Theorem split_chapters_clips_cover clip ls rows menu w :
  rows_at (heap w) ls rows ->
  Forall valid_boundaries rows ->
  0 <= menu ->
  ((exists x, split_chapters_clips clip ls menu w = Ok x)
   <-> menu < Z.of_nat (length clip)
       /\ titles_fit (Z.of_nat (length clip) - menu) (map last0 rows) = true)
  /\ forall ls' clips w',
       split_chapters_clips clip ls menu w = Ok ((ls', clips), w') ->
       exists titles,
         clips = titles ++ (if menu =? 0 then [] else [take (Z.to_nat menu) clip])
         /\ length titles = length rows
         /\ Forall (fun s => s <> []) clips
         /\ concat titles
            = take (Z.to_nat (sumZ (map last0 rows))) (drop (Z.to_nat menu) clip).
Proof.
  intros Hat Hv Hm.
  assert (Forall (fun d => 0 <= d) (map last0 rows)) as Hnn.
  { apply Forall_fmap. eapply Forall_impl; [exact Hv|].
    apply valid_boundaries_last_nonneg. }
  assert (Forall (fun row : list Z => row <> []) rows) as Hne
    by (eapply Forall_impl; [exact Hv|apply valid_boundaries_nonempty]).
  split; [split|].
  - intros [x Hx].
    apply (split_chapters_clips_ok clip ls rows) in Hx as (_ & Hc & Ht & _);
      [|done..].
    apply py_slice_from_nonempty in Hc; [|done]. split; [done|].
    apply title_clips_nonempty; [lia|done..].
  - intros [Hlt Hfit]. eexists.
    apply (split_chapters_clips_run clip ls rows); [done..| | |].
    + apply py_slice_from_nonempty; lia.
    + apply title_clips_nonempty; [lia|done..].
    + intros Hm0. apply py_slice_upto_nonempty; lia.
  - intros ls' clips w' Hs.
    apply (split_chapters_clips_ok clip ls rows) in Hs as (Hx & _ & Ht & Hmc);
      [|done..].
    exists (title_clips clip menu (map last0 rows)).
    destruct (Z.eqb_spec menu 0) as [Hm0|Hm0]; injection Hx as _ -> _.
    + rewrite app_nil_r. split; [done|].
      split; [by rewrite length_title_clips, length_map|].
      split; [done|by apply title_clips_cover].
    + rewrite py_slice_upto by done. split; [done|].
      split; [by rewrite length_title_clips, length_map|].
      split; [|by apply title_clips_cover].
      apply Forall_app. split; [done|]. constructor; [|constructor].
      rewrite <- py_slice_upto by done. auto.
Qed.

(** X15. when, in addition, the menu length and the final boundaries fit into
    the decoded sequence, every title slice has as many frames as the final
    boundary of its title, and the menu slice has the menu length. *)
Theorem split_chapters_clips_frame_counts clip ls rows menu w ls' clips w' :
  rows_at (heap w) ls rows ->
  Forall valid_boundaries rows ->
  0 <= menu ->
  menu + sumZ (map last0 rows) <= Z.of_nat (length clip) ->
  split_chapters_clips clip ls menu w = Ok ((ls', clips), w') ->
  map (fun c => Z.of_nat (length c)) clips
  = map last0 rows ++ (if menu =? 0 then [] else [menu]).
Proof.
  intros Hat Hv Hm Hfit Hs.
  assert (Forall (fun d => 0 <= d) (map last0 rows)) as Hnn.
  { apply Forall_fmap. eapply Forall_impl; [exact Hv|].
    apply valid_boundaries_last_nonneg. }
  pose proof (sumZ_nonneg _ Hnn) as Hsum.
  apply (split_chapters_clips_ok clip ls rows) in Hs as (Hx & _);
    [|done|eapply Forall_impl; [exact Hv|apply valid_boundaries_nonempty]].
  destruct (menu =? 0); injection Hx as _ -> _.
  - by rewrite app_nil_r, title_clips_frame_counts.
  - rewrite map_app, title_clips_frame_counts by done. f_equal.
    cbn [map]. rewrite py_slice_upto, length_take by done. f_equal. lia.
Qed.

(** The joined chapter list after the first pass. *)
Lemma first_pass_joined_contents clip ifo_info idx_info w t menu w1 :
  Forall valid_boundaries (chapters ifo_info) ->
  first_pass clip ifo_info idx_info w = Ok ((t, menu), w1) ->
  exists merged,
    heap w1 !! joined_chapters t = Some merged
    /\ valid_boundaries merged
    /\ last0 merged = sumZ (map last0 (chapters ifo_info)) + menu
    /\ final_boundary t w1 = Ok (last0 merged, w1).
Proof.
  intros Hvalid Hfp.
  destruct (first_pass_inv _ _ _ _ _ _ _ Hvalid Hfp)
    as (Hmenu & _ & _ & r0 & rs & Hrows & _ & Hloc & Hheap & _).
  assert (Forall valid_boundaries (r0 :: rs)) as Hvrows.
  { rewrite <- Hrows. apply Forall_app. split; [done|].
    destruct (menu =? 0); [constructor|].
    constructor; [by apply valid_boundaries_menu|constructor]. }
  apply Forall_cons in Hvrows as [Hr0 Hrs].
  exists (foldl merge_step r0 rs).
  assert (heap w1 !! joined_chapters t = Some (foldl merge_step r0 rs)) as Hjl.
  { rewrite Hloc, Hheap. apply list_lookup_insert_eq.
    rewrite length_app. cbn [length]. lia. }
  assert (valid_boundaries (foldl merge_step r0 rs)) as Hv
    by (by apply foldl_merge_step_valid).
  split; [done|]. split; [done|]. split.
  - rewrite last0_foldl_merge_step by done.
    change (last0 r0 + sumZ (map last0 rs)) with (sumZ (map last0 (r0 :: rs))).
    rewrite <- Hrows, map_app, sumZ_app. f_equal.
    destruct (Z.eqb_spec menu 0) as [->|_]; [done|].
    unfold sumZ, last0. cbn. lia.
  - unfold final_boundary. erewrite mbind_run by (by apply deref_run).
    by rewrite py_getitem_last0 by (by apply valid_boundaries_nonempty).
Qed.

(** X16. after the first pass the joined chapter list starts at 0 and never
    decreases, and its final value is the sum of the final boundaries of the
    titles plus the menu length. *)
Theorem joined_chapters_valid clip ifo_info idx_info w t menu w1 :
  Forall valid_boundaries (chapters ifo_info) ->
  first_pass clip ifo_info idx_info w = Ok ((t, menu), w1) ->
  exists joined,
    heap w1 !! joined_chapters t = Some joined
    /\ valid_boundaries joined
    /\ last joined = Some (sumZ (map last0 (chapters ifo_info)) + menu).
Proof.
  intros Hvalid Hfp.
  destruct (first_pass_joined_contents _ _ _ _ _ _ _ Hvalid Hfp)
    as (merged & Hjl & Hv & Hlast & _).
  exists merged. split; [done|]. split; [done|].
  rewrite <- Hlast. unfold last0.
  destruct (last merged) eqn:Hl; [done|].
  apply last_None in Hl. by apply valid_boundaries_nonempty in Hv.
Qed.

(** The joined sequence of the first pass, in frames of the decoded
    sequence. *)
Lemma first_pass_joined_clip clip ifo_info idx_info w t menu w1 :
  Forall valid_boundaries (chapters ifo_info) ->
  first_pass clip ifo_info idx_info w = Ok ((t, menu), w1) ->
  0 <= menu
  /\ 0 <= sumZ (map last0 (chapters ifo_info))
  /\ joined_clip t
     = take (Z.to_nat (sumZ (map last0 (chapters ifo_info))))
            (drop (Z.to_nat menu) clip)
       ++ take (Z.to_nat menu) clip.
Proof.
  intros Hvalid Hfp.
  destruct (first_pass_inv _ _ _ _ _ _ _ Hvalid Hfp)
    as (Hmenu & Hclips & Hjoined & _).
  assert (Forall (fun d => 0 <= d) (map last0 (chapters ifo_info))) as Hnn.
  { apply Forall_fmap. eapply Forall_impl; [exact Hvalid|].
    apply valid_boundaries_last_nonneg. }
  assert (0 <= sumZ (map last0 (chapters ifo_info))) as Hsum.
  { clear -Hnn. induction Hnn as [|d l Hd Hl IH]; unfold sumZ in *; cbn; lia. }
  split; [done|]. split; [done|].
  rewrite Hjoined, Hclips, concat_app, title_clips_cover by done. f_equal.
  destruct (Z.eqb_spec menu 0) as [->|_]; [done|].
  cbn [concat]. by rewrite app_nil_r, py_slice_upto.
Qed.

(** X17. split-then-join. When no correction is needed the joined sequence is
    the frames after the menu segment up to the final title boundary,
    followed by the menu segment; when the final boundary equals the decoded
    frame count it is the whole decoded sequence with the menu segment moved
    to the back, and the decoded sequence itself when there is no menu. *)
Theorem joined_clip_round_trip clip ifo_info idx_info w t menu w1 final :
  Forall valid_boundaries (chapters ifo_info) ->
  first_pass clip ifo_info idx_info w = Ok ((t, menu), w1) ->
  final_boundary t w1 = Ok (final, w1) ->
  final <= Z.of_nat (length clip) ->
  joined_clip t
  = take (Z.to_nat (final - menu)) (drop (Z.to_nat menu) clip)
    ++ take (Z.to_nat menu) clip
  /\ (final = Z.of_nat (length clip) ->
      joined_clip t = drop (Z.to_nat menu) clip ++ take (Z.to_nat menu) clip)
  /\ (final = Z.of_nat (length clip) -> menu = 0 -> joined_clip t = clip).
Proof.
  intros Hvalid Hfp Hfin Hle.
  destruct (first_pass_joined_contents _ _ _ _ _ _ _ Hvalid Hfp)
    as (merged & _ & _ & Hlast & Hfin').
  rewrite Hfin' in Hfin. injection Hfin as <-.
  destruct (first_pass_joined_clip _ _ _ _ _ _ _ Hvalid Hfp)
    as (Hmenu & Hsum & Hj).
  rewrite Hlast in *.
  replace (sumZ (map last0 (chapters ifo_info)) + menu - menu)
    with (sumZ (map last0 (chapters ifo_info))) by lia.
  split; [done|].
  assert (sumZ (map last0 (chapters ifo_info)) + menu = Z.of_nat (length clip) ->
          joined_clip t = drop (Z.to_nat menu) clip ++ take (Z.to_nat menu) clip)
    as Hfull.
  { intros Heq. rewrite Hj. f_equal. apply take_ge. rewrite length_drop. lia. }
  split; [done|].
  intros Heq ->. rewrite (Hfull Heq). change (Z.to_nat 0) with 0%nat.
  by rewrite drop_0, take_0, app_nil_r.
Qed.

(** X18. on a split result that needed no correction, the pair without bounds
    on the joined title returns the entire joined sequence. *)
Theorem get_title_whole_joined clip ifo_info idx_info w t menu w1 final :
  Forall valid_boundaries (chapters ifo_info) ->
  first_pass clip ifo_info idx_info w = Ok ((t, menu), w1) ->
  final_boundary t w1 = Ok (final, w1) ->
  final <= Z.of_nat (length clip) ->
  get_title (heap w1) t None (QTuple None None) = Ok (TClip (joined_clip t)).
Proof.
  intros Hvalid Hfp Hfin Hle.
  destruct (first_pass_joined_contents _ _ _ _ _ _ _ Hvalid Hfp)
    as (merged & Hjl & Hv & Hlast & Hfin').
  rewrite Hfin' in Hfin. injection Hfin as <-.
  destruct (first_pass_joined_clip _ _ _ _ _ _ _ Hvalid Hfp)
    as (Hmenu & Hsum & Hj).
  destruct (first_pass_fits _ _ _ _ _ _ _ Hvalid Hfp) as (_ & Hfit).
  destruct (first_pass_inv _ _ _ _ _ _ _ Hvalid Hfp)
    as (_ & _ & _ & r0 & rs & Hrows & _).
  assert (0 < last0 merged) as Hpos.
  { rewrite Hlast. destruct (chapters ifo_info) as [|c cs].
    - cbn in Hrows. destruct (Z.eqb_spec menu 0); [done|]. unfold sumZ. cbn. lia.
    - apply titles_fit_positive in Hfit. cbn [map] in Hfit.
      apply Forall_cons in Hfit as [Hc Hcs].
      assert (0 <= sumZ (map last0 cs))
        by (apply sumZ_nonneg; eapply Forall_impl; [exact Hcs|cbn; lia]).
      unfold sumZ in *. cbn [map foldr]. lia. }
  pose proof (valid_boundaries_nonempty _ Hv) as Hne.
  cbn [get_title]. unfold select_title. rewrite Hjl. cbn [rbind fst snd].
  rewrite (py_getitem_lookup merged 0 0) by (lia || apply Hv). cbn [rbind].
  assert (py_getitem merged (Z.of_nat (length merged) - 1) = Ok (last0 merged))
    as ->.
  { rewrite <- py_getitem_last0 by done.
    rewrite (py_getitem_neg merged (-1)); [f_equal; lia|].
    destruct merged; [done|cbn [length]; lia]. }
  cbn [rbind]. rewrite trimmed_between by lia. unfold frames_between.
  assert (length (joined_clip t) = Z.to_nat (last0 merged)) as Hlen.
  { rewrite Hj, length_app, !length_take, length_drop. lia. }
  change (Z.to_nat 0) with 0%nat.
  rewrite bool_decide_eq_true_2 by lia.
  rewrite drop_0, Nat.sub_0_r. rewrite take_ge; [done|lia].
Qed.

End Covers.

Lemma split_chapters_clips_cover_witness :
  (exists x, split_chapters_clips (decoded 350) [0%nat; 1%nat] 10
               {| heap := [[0; 100; 200]; [0; 50; 100]]; stdout := [] |} = Ok x)
  /\ ~ (exists x, split_chapters_clips (decoded 250) [0%nat; 1%nat] 0
                    {| heap := [[0; 100; 250]; [0; 50; 100]]; stdout := [] |} = Ok x).
Proof.
  split.
  - destruct (split_chapters_clips_cover (decoded 350) [0%nat; 1%nat]
                [[0; 100; 200]; [0; 50; 100]] 10
                {| heap := [[0; 100; 200]; [0; 50; 100]]; stdout := [] |})
      as [Hiff _].
    + repeat constructor.
    + repeat constructor; intros [|[|[|i]]] [|[|[|j]]] x y Hij Hx Hy;
        cbn in *; simplify_eq; lia.
    + lia.
    + apply Hiff. split; vm_compute; reflexivity.
  - destruct (split_chapters_clips_cover (decoded 250) [0%nat; 1%nat]
                [[0; 100; 250]; [0; 50; 100]] 0
                {| heap := [[0; 100; 250]; [0; 50; 100]]; stdout := [] |})
      as [Hiff _].
    + repeat constructor.
    + repeat constructor; intros [|[|[|i]]] [|[|[|j]]] x y Hij Hx Hy;
        cbn in *; simplify_eq; lia.
    + lia.
    + intros [_ Hfit]%Hiff. vm_compute in Hfit. discriminate.
Defined.

Lemma split_chapters_clips_frame_counts_witness :
  map (fun c : list nat => Z.of_nat (length c)) [seq 10 200; seq 210 100; seq 0 10]
  = map last0 [[0; 100; 200]; [0; 50; 100]] ++ [10].
Proof.
  refine (split_chapters_clips_frame_counts (decoded 350) [0%nat; 1%nat]
            [[0; 100; 200]; [0; 50; 100]] 10
            {| heap := [[0; 100; 200]; [0; 50; 100]]; stdout := [] |}
            [0%nat; 1%nat; 2%nat] [seq 10 200; seq 210 100; seq 0 10]
            {| heap := [[0; 100; 200]; [0; 50; 100]; [0; 10]]; stdout := [] |}
            _ _ _ _ _).
  - repeat constructor.
  - repeat constructor; intros [|[|[|i]]] [|[|[|j]]] x y Hij Hx Hy;
      cbn in *; simplify_eq; lia.
  - lia.
  - vm_compute. discriminate.
  - vm_compute. reflexivity.
Defined.

Lemma sample_chapters_valid :
  Forall valid_boundaries (chapters (ifo_of [[0; 100; 200]; [0; 50; 100]])).
Proof.
  repeat constructor; intros [|[|[|i]]] [|[|[|j]]] x y Hij Hx Hy;
    cbn in *; simplify_eq; lia.
Defined.

Lemma sample_first_pass :
  first_pass (decoded 350) (ifo_of [[0; 100; 200]; [0; 50; 100]]) (idx_menu 10)
    empty_world
  = Ok (({| split_clips := [seq 10 200; seq 210 100; seq 0 10];
            split_chapters := [0%nat; 1%nat; 2%nat];
            joined_clip := seq 10 300 ++ seq 0 10; joined_chapters := 0%nat |},
         10),
        {| heap := [[0; 100; 200; 250; 300; 310]; [0; 50; 100]; [0; 10]];
           stdout := [] |}).
Proof. vm_compute. reflexivity. Defined.

Lemma joined_chapters_valid_witness :
  exists joined,
    [[0; 100; 200; 250; 300; 310]; [0; 50; 100]; [0; 10]] !! 0%nat = Some joined
    /\ valid_boundaries joined
    /\ last joined = Some (sumZ (map last0 [[0; 100; 200]; [0; 50; 100]]) + 10).
Proof.
  exact (joined_chapters_valid (decoded 350) _ _ _ _ _ _
           sample_chapters_valid sample_first_pass).
Defined.

Lemma joined_clip_round_trip_witness :
  seq 10 300 ++ seq 0 10
  = take (Z.to_nat (310 - 10)) (drop (Z.to_nat 10) (decoded 350))
    ++ take (Z.to_nat 10) (decoded 350).
Proof.
  refine (proj1 (joined_clip_round_trip (decoded 350) _ _ _ _ _ _ 310
                   sample_chapters_valid sample_first_pass _ _)).
  - vm_compute. reflexivity.
  - vm_compute. discriminate.
Defined.

Lemma get_title_whole_joined_witness :
  get_title [[0; 100; 200; 250; 300; 310]; [0; 50; 100]; [0; 10]]
    {| split_clips := [seq 10 200; seq 210 100; seq 0 10];
       split_chapters := [0%nat; 1%nat; 2%nat];
       joined_clip := seq 10 300 ++ seq 0 10; joined_chapters := 0%nat |}
    None (QTuple None None)
  = Ok (TClip (seq 10 300 ++ seq 0 10)).
Proof.
  refine (get_title_whole_joined (decoded 350) _ _ _ _ _ _ 310
            sample_chapters_valid sample_first_pass _ _).
  - vm_compute. reflexivity.
  - vm_compute. discriminate.
Defined.

(** ** Invariants of every split result *)

Lemma mapM_length {A B} (f : A -> M B) (l : list A) : forall w ys w',
  mapM f l w = Ok (ys, w') -> length ys = length l.
Proof.
  induction l as [|x l IH]; intros w ys w'; cbn [mapM].
  - by intros [<- _]%mret_ok.
  - intros (y & w1 & _ & (ys' & w2 & Hl & [<- _]%mret_ok)%mbind_ok)%mbind_ok.
    cbn [length]. f_equal. by eapply IH.
Qed.

Lemma rmap_length {A B} (f : A -> result B) (l : list A) ys :
  rmap f l = Ok ys -> length ys = length l.
Proof.
  revert ys. induction l as [|x l IH]; intros ys; cbn [rmap].
  - by intros [= <-].
  - destruct (f x) as [y|]; [|done]. cbn [rbind].
    destruct (rmap f l) as [ys'|]; [|done]. cbn [rbind].
    intros [= <-]. cbn [length]. f_equal. by apply IH.
Qed.

Lemma py_getitem_0_inv {A} (l : list A) x :
  py_getitem l 0 = Ok x -> l !! 0%nat = Some x.
Proof.
  destruct l as [|y l]; [by rewrite py_getitem_nil|].
  rewrite py_getitem_head. by intros [= ->].
Qed.

Lemma gen_joined_chapts_head spl w j w' :
  gen_joined_chapts spl w = Ok (j, w') -> spl !! 0%nat = Some j.
Proof.
  unfold gen_joined_chapts.
  intros (j0 & w1 & [Hj0 ->]%lift_ok & H)%mbind_ok.
  apply py_getitem_0_inv in Hj0.
  destruct (bool_decide _).
  - apply mbind_ok in H as (us & w2 & _ & [<- _]%mret_ok). done.
  - apply mret_ok in H as [<- _]. done.
Qed.

Section ResultInvariants.

Context {Frame : Type}.
Implicit Types (clip : list Frame) (t : Titles Frame).

Lemma split_chapters_clips_lengths clip ls menu w ls' clips w' :
  split_chapters_clips clip ls menu w = Ok ((ls', clips), w') ->
  length ls' = length clips.
Proof.
  unfold split_chapters_clips.
  intros (lasts & w1 & Hlasts & H)%mbind_ok.
  apply mapM_length in Hlasts. cbv zeta in H.
  apply mbind_ok in H as (clip' & w2 & _ & H).
  apply mbind_ok in H as (cs & w3 & [Hcs _]%lift_ok & H).
  assert (length cs = length lasts) as Hlen.
  { apply rmap_length in Hcs. rewrite Hcs.
    rewrite <- (length_title_clips clip menu lasts). unfold title_clips.
    by rewrite length_map. }
  destruct (negb (menu =? 0)).
  - apply mbind_ok in H as (mc & w4 & _ & H).
    apply mbind_ok in H as (l & w5 & _ & [[= <- <-] _]%mret_ok).
    rewrite !length_app. cbn [length]. lia.
  - apply mret_ok in H as [[= <- <-] _]. lia.
Qed.

Lemma first_pass_shape clip ifo_info idx_info w t menu w1 :
  first_pass clip ifo_info idx_info w = Ok ((t, menu), w1) ->
  length (split_chapters t) = length (split_clips t)
  /\ split_chapters t !! 0%nat = Some (joined_chapters t).
Proof.
  unfold first_pass.
  intros (chs & wa & _ & (m & wb & _ & ([ls clips] & wc & Hsplit
           & (jc & wd & _ & (jch & we & Hj & [[= <- _] _]%mret_ok)%mbind_ok)
               %mbind_ok)%mbind_ok)%mbind_ok)%mbind_ok.
  cbn [fst snd split_chapters split_clips joined_chapters] in *. split.
  - by eapply split_chapters_clips_lengths.
  - by eapply gen_joined_chapts_head.
Qed.

Lemma correction_pass_shape clip t menu w t' w' :
  correction_pass clip t menu w = Ok (t', w') ->
  length (split_chapters t') = length (split_clips t')
  /\ split_chapters t' !! 0%nat = Some (joined_chapters t').
Proof.
  unfold correction_pass.
  intros (old & wa & _ & (new & wb & _ & (rows & wc & _ & ([ls clips] & wd & Hsplit
           & (jc & we & _ & (jch & wf & Hj & [<- _]%mret_ok)%mbind_ok)
               %mbind_ok)%mbind_ok)%mbind_ok)%mbind_ok)%mbind_ok.
  cbn [fst snd split_chapters split_clips joined_chapters] in *. split.
  - by eapply split_chapters_clips_lengths.
  - by eapply gen_joined_chapts_head.
Qed.

Lemma split_titles_shape safe_indices clip ifo_info idx_info w t w' :
  split_titles safe_indices clip ifo_info idx_info w = Ok (t, w') ->
  length (split_chapters t) = length (split_clips t)
  /\ split_chapters t !! 0%nat = Some (joined_chapters t).
Proof.
  unfold split_titles.
  intros ([t1 menu] & w1 & Hfp & (final & w2 & _ & H)%mbind_ok)%mbind_ok.
  cbn [fst snd] in H.
  destruct (_ <? _); [destruct (negb safe_indices)|].
  - apply mbind_ok in H as (u & w3 & _ & [<- _]%mret_ok).
    by eapply first_pass_shape.
  - by eapply correction_pass_shape.
  - apply mret_ok in H as [<- _]. by eapply first_pass_shape.
Qed.

(** X19. every result of [split_titles], in either mode, has as many split
    sequences as split chapter lists. *)
Theorem split_titles_same_length safe_indices clip ifo_info idx_info w t w' :
  split_titles safe_indices clip ifo_info idx_info w = Ok (t, w') ->
  length (split_clips t) = length (split_chapters t).
Proof. intros H. symmetry. by eapply split_titles_shape. Qed.

(** X20. in every result of [split_titles] the joined chapter list is the
    list object of title 0: a query on title 0 reads the boundaries of the
    joined result. *)
Theorem split_titles_joined_is_title0 safe_indices clip ifo_info idx_info w t w' :
  split_titles safe_indices clip ifo_info idx_info w = Ok (t, w') ->
  split_chapters t !! 0%nat = Some (joined_chapters t)
  /\ forall ranges clip0,
       select_title (heap w') t (Some 0) = Ok (ranges, clip0) ->
       select_title (heap w') t None = Ok (ranges, joined_clip t).
Proof.
  intros H. apply split_titles_shape in H as [_ Hhead]. split; [done|].
  intros ranges clip0. unfold select_title.
  rewrite (py_getitem_lookup (split_chapters t) 0 (joined_chapters t))
    by (done || lia).
  cbn [rbind]. destruct (py_getitem (split_clips t) 0); [|done]. cbn [rbind].
  destruct (heap w' !! joined_chapters t); [|done]. by intros [= -> _].
Qed.

End ResultInvariants.

Lemma sample_split_default :
  split_titles false (decoded 250) (ifo_of [[0; 100; 200]; [0; 50; 100]])
    idx_no_menu empty_world
  = Ok ({| split_clips := [seq 0 200; seq 200 50]; split_chapters := [0%nat; 1%nat];
           joined_clip := decoded 250; joined_chapters := 0%nat |},
        {| heap := [[0; 100; 200; 250; 300]; [0; 50; 100]];
           stdout := [broken_chapters_warning] |}).
Proof. vm_compute. reflexivity. Defined.

Lemma split_titles_same_length_witness :
  length [seq 0 200; seq 200 50] = length [0%nat; 1%nat].
Proof.
  exact (split_titles_same_length false (decoded 250) _ _ _ _ _ sample_split_default).
Defined.

Lemma split_titles_joined_is_title0_witness :
  [0%nat; 1%nat] !! 0%nat = Some 0%nat.
Proof.
  exact (proj1 (split_titles_joined_is_title0 false (decoded 250) _ _ _ _ _
                  sample_split_default)).
Defined.

(** ** Chapters tile the selected sequence *)

Section Tiling.

Context {Frame : Type}.
Implicit Types (h : list (list Z)) (t : Titles Frame) (clip : list Frame)
  (ranges : list Z).

Lemma concat_nonempty (cs : list (list Frame)) :
  cs <> [] -> Forall (fun s => s <> []) cs -> concat cs <> [].
Proof.
  destruct cs as [|c cs]; [done|]. intros _ [Hc _]%Forall_cons.
  cbn [concat]. by destruct c.
Qed.

(** X21. over a valid list of at least two boundaries: whenever the chapters
    [0 .. len(ranges) - 2], queried as a list, are all returned, they are
    non-empty consecutive slices, their concatenation is the frames from 0
    up to the final boundary, and that is what the pair without bounds
    returns. *)
Theorem get_title_chapters_tile h t clip_index ranges clip rs :
  select_title h t clip_index = Ok (ranges, clip) ->
  valid_boundaries ranges ->
  (2 <= length ranges)%nat ->
  get_title h t clip_index
    (QList (map (fun k => QInt (Z.of_nat k)) (seq 0 (length ranges - 1))))
  = Ok (TList rs) ->
  exists clips,
    rs = map TClip clips
    /\ Forall (fun s => s <> []) clips
    /\ concat clips = take (Z.to_nat (last0 ranges)) clip
    /\ get_title h t clip_index (QTuple None None) = Ok (TClip (concat clips)).
Proof.
  intros Hsel Hv Hlen Hq. pose proof (valid_boundaries_nonempty _ Hv) as Hne.
  pose proof (valid_boundaries_last_nonneg _ Hv) as Hlast.
  destruct Hv as [H0 Hnd].
  destruct ranges as [|a d]; [done|]. cbn in H0. injection H0 as ->.
  set (ranges := 0 :: d) in *.
  set (clips := map (fun se : Z * Z => py_slice clip (Some (fst se)) (Some (snd se)))
                    (zip ranges d)).
  assert (concat clips = py_slice clip (Some 0) (Some (last0 ranges))) as Hcat
    by (by apply consecutive_concat).
  set (qs := map (fun k => QInt (Z.of_nat k)) (seq 0 (length ranges - 1))) in *.
  pose proof Hq as Hq2.
  apply (get_title_QList_iff h t clip_index ranges clip) in Hq2; [|done].
  assert (forall i lo hi, ranges !! i = Some lo -> d !! i = Some hi ->
            get_title h t clip_index (QInt (Z.of_nat i)) = trimmed clip lo hi)
    as Hchap.
  { intros i lo hi Hlo Hhi.
    apply (get_title_QInt_lookup h t clip_index ranges clip); [done|lia|..].
    - by rewrite Nat2Z.id.
    - replace (Z.to_nat (Z.of_nat i + 1)) with (S i) by lia. exact Hhi. }
  assert (Forall (fun s => s <> []) clips) as Hnon.
  { apply Forall_forall. intros c [i Hc]%list_elem_of_lookup_1.
    unfold clips in Hc. apply list_lookup_fmap_Some in Hc as ([lo hi] & -> & Hz).
    apply lookup_zip_with_Some in Hz as (lo' & hi' & [= <- <-] & Hlo & Hhi).
    cbn [fst snd].
    assert (qs !! i = Some (QInt (Z.of_nat i))) as Hqi.
    { unfold qs. rewrite list_lookup_fmap, lookup_seq_lt; [done|].
      apply lookup_lt_Some in Hhi. unfold ranges. cbn [length]. lia. }
    destruct (Forall2_lookup_l _ _ _ _ _ Hq2 Hqi) as (r & _ & Hr).
    rewrite (Hchap i lo hi) in Hr by done. unfold trimmed in Hr.
    destruct (vs_slice clip (Some lo) (Some hi)) as [fr|] eqn:Hvs; [|done].
    by apply vs_slice_ok in Hvs as [<- ?]. }
  assert (get_title h t clip_index (QList qs) = Ok (TList (map TClip clips)))
    as Hall.
  { apply (get_title_QList_iff h t clip_index ranges clip); [done|].
    apply Forall2_fmap, Forall2_same_length_lookup_2.
    + unfold clips. rewrite length_map, length_zip_with, length_seq.
      unfold ranges. cbn [length]. lia.
    + intros i k c Hk Hc. apply lookup_seq in Hk as [-> Hi]. cbn in Hi.
      pose proof (Forall_lookup_1 _ _ _ _ Hnon Hc) as Hcne.
      unfold clips in Hc.
      apply list_lookup_fmap_Some in Hc as ([lo hi] & -> & Hz).
      apply lookup_zip_with_Some in Hz as (lo' & hi' & [= <- <-] & Hlo & Hhi).
      cbn [compose fst snd] in *. change (0 + i)%nat with i.
      rewrite (Hchap i lo hi) by done. unfold trimmed. by rewrite vs_slice_run. }
  rewrite Hall in Hq. injection Hq as <-.
  exists clips. split; [done|]. split; [done|]. split.
  - rewrite Hcat, py_slice_range by lia. change (Z.to_nat 0) with 0%nat.
    by rewrite drop_0, Z.sub_0_r.
  - cbn [get_title]. rewrite Hsel. cbn [rbind fst snd].
    rewrite (py_getitem_lookup ranges 0 0) by (done || lia). cbn [rbind].
    assert (py_getitem ranges (Z.of_nat (length ranges) - 1) = Ok (last0 ranges))
      as ->.
    { rewrite <- py_getitem_last0 by done.
      rewrite (py_getitem_neg ranges (-1)); [f_equal; lia|].
      unfold ranges. cbn [length]. lia. }
    cbn [rbind]. unfold trimmed.
    rewrite vs_slice_run; [cbn [rbind]; by rewrite Hcat|]. rewrite <- Hcat.
    apply concat_nonempty; [|done].
    intros Hnil%(f_equal length). unfold clips in Hnil.
    rewrite length_map, length_zip_with in Hnil.
    unfold ranges in *. cbn [length] in *. lia.
Qed.

End Tiling.

Lemma get_title_chapters_tile_witness :
  exists clips,
    [TClip (seq 0 100); TClip (seq 100 100); TClip (seq 200 100)] = map TClip clips
    /\ Forall (fun s => s <> []) clips
    /\ concat clips = take (Z.to_nat (last0 [0; 100; 200; 300])) (decoded 300)
    /\ get_title sample_heap sample_titles None (QTuple None None)
       = Ok (TClip (concat clips)).
Proof.
  refine (get_title_chapters_tile sample_heap sample_titles None
            [0; 100; 200; 300] (decoded 300) _ _ _ _ _).
  - reflexivity.
  - split; [done|].
    intros [|[|[|[|i]]]] [|[|[|[|j]]]] x y Hij Hx Hy; cbn in *; simplify_eq; lia.
  - cbn. lia.
  - vm_compute. reflexivity.
Defined.

(** ** The mount folder *)

(** X22. the root of a DVD and its VIDEO_TS folder, in any spelling that
    [upper] maps to VIDEO_TS, resolve to the same mount folder
    [root/VIDEO_TS], and leave [self.iso_path] at the root. *)
Theorem mount_folder_path_of_root_or_subfolder upper root d :
  upper d = "VIDEO_TS" ->
  upper (path_name root) <> "VIDEO_TS" ->
  mount_folder_path upper false (root ++ [d]) = (root ++ ["VIDEO_TS"], root)
  /\ mount_folder_path upper false root = (root ++ ["VIDEO_TS"], root).
Proof.
  intros Hd Hroot. unfold mount_folder_path, path_name, path_parent. split.
  - rewrite last_snoc. change (default "" (Some d)) with d. rewrite Hd.
    change ("VIDEO_TS" =? "VIDEO_TS")%string with true. cbv iota.
    rewrite length_app. cbn [length].
    replace (length root + 1 - 1)%nat with (length root) by lia.
    by rewrite take_app_length.
  - unfold path_name in Hroot.
    destruct (String.eqb_spec (upper (default "" (last root))) "VIDEO_TS");
      [done|done].
Qed.

Lemma mount_folder_path_of_root_or_subfolder_witness :
  mount_folder_path upper_ascii false ["mnt"; "dvd"; "video_ts"]
  = (["mnt"; "dvd"; "VIDEO_TS"], ["mnt"; "dvd"])
  /\ mount_folder_path upper_ascii false ["mnt"; "dvd"]
     = (["mnt"; "dvd"; "VIDEO_TS"], ["mnt"; "dvd"]).
Proof.
  refine (mount_folder_path_of_root_or_subfolder upper_ascii ["mnt"; "dvd"]
            "video_ts" _ _).
  - vm_compute. reflexivity.
  - vm_compute. discriminate.
Defined.

(** ** Strict mode: what is left of the later titles *)

Section StrictCollapse.

Context {Frame : Type}.
Implicit Types (clip : list Frame) (t : Titles Frame).

(** X23. strict mode on a disc with a menu segment whose first pass ends
    beyond the decoded frame count: the correction returns, and every title
    after the first is left with the boundary list [[0, 1]], whatever its
    chapters were. *)
Theorem strict_mode_later_titles_collapsed clip ifo_info idx_info w t menu w1 final :
Forall valid_boundaries (chapters ifo_info) ->
chapters ifo_info <> [] ->
first_pass clip ifo_info idx_info w = Ok ((t, menu), w1) ->
final_boundary t w1 = Ok (final, w1) ->
Z.of_nat (length clip) < final ->
menu <> 0 ->
exists t' w2,
  split_titles true clip ifo_info idx_info w = Ok (t', w2)
  /\ forall k, (1 <= k < length (chapters ifo_info))%nat ->
       exists l, split_chapters t' !! k = Some l /\ heap w2 !! l = Some [0; 1].
Proof.
intros Hvalid Htitles Hfp Hfin Hover Hm.
destruct (strict_mode_result _ _ _ _ _ _ _ _ Hvalid Htitles Hfp Hfin Hover
            (or_introl Hm))
  as (t' & w2 & X & Hsplit & Hspl & _ & _ & _ & Hheap).
exists t', w2. split; [done|]. intros k Hk.
exists (length (heap w1) + k)%nat. split.
- rewrite Hspl. apply lookup_seq. split; [done|].
  rewrite length_app, length_replicate. lia.
- rewrite Hheap, list_lookup_insert_ne by lia.
  rewrite lookup_app_r by lia.
  replace (length (heap w1) + k - length (heap w1))%nat with (S (k - 1)) by lia.
  rewrite lookup_cons. cbv iota.
  rewrite lookup_app_l by (rewrite length_replicate; lia).
  apply lookup_replicate_2. lia.
Qed.

(** X24. strict mode on a disc with at least one title whose first pass
    ends beyond the decoded frame count. With a menu segment the
    regenerated joined chapters end exactly on the frame count. Without
    one, a single title ends one frame past it, and with two or more titles
    the correction is refused: the second split asks for the frame behind
    the last one. *)
Theorem strict_mode_ends_on_frame_count clip ifo_info idx_info w t menu w1 final :
Forall valid_boundaries (chapters ifo_info) ->
chapters ifo_info <> [] ->
first_pass clip ifo_info idx_info w = Ok ((t, menu), w1) ->
final_boundary t w1 = Ok (final, w1) ->
Z.of_nat (length clip) < final ->
(menu <> 0 ->
 exists t' w2,
   split_titles true clip ifo_info idx_info w = Ok (t', w2)
   /\ final_boundary t' w2 = Ok (Z.of_nat (length clip), w2))
/\ (menu = 0 -> length (chapters ifo_info) = 1%nat ->
    exists t' w2,
      split_titles true clip ifo_info idx_info w = Ok (t', w2)
      /\ final_boundary t' w2 = Ok (Z.of_nat (length clip) + 1, w2))
/\ (menu = 0 -> (2 <= length (chapters ifo_info))%nat ->
    split_titles true clip ifo_info idx_info w = Raise VSError).
Proof.
intros Hvalid Htitles Hfp Hfin Hover. split; [|split].
- intros Hm.
  destruct (strict_mode_final_boundary _ _ _ _ _ _ _ _ Hvalid Htitles Hfp Hfin
              Hover (or_introl Hm)) as (t' & w2 & Hs & Hf).
  exists t', w2. split; [done|]. rewrite Hf.
  by destruct (Z.eqb_spec menu 0).
- intros Hm Hone.
  destruct (strict_mode_final_boundary _ _ _ _ _ _ _ _ Hvalid Htitles Hfp Hfin
              Hover (or_intror Hone)) as (t' & w2 & Hs & Hf).
  exists t', w2. split; [done|]. rewrite Hf. by rewrite Hm.
- intros Hm Htwo. by eapply strict_mode_refused.
Qed.

End StrictCollapse.

Lemma sample_overflow_valid :
  Forall valid_boundaries (chapters (ifo_of [[0; 100; 200]; [0; 50; 100]; [0; 30]])).
Proof.
  repeat constructor; intros [|[|[|i]]] [|[|[|j]]] x y Hij Hx Hy;
    cbn in *; simplify_eq; lia.
Defined.

Lemma sample_overflow_first_pass :
  first_pass (decoded 320) (ifo_of [[0; 100; 200]; [0; 50; 100]; [0; 30]])
    (idx_menu 10) empty_world
  = Ok (({| split_clips := [seq 10 200; seq 210 100; seq 310 10; seq 0 10];
            split_chapters := [0%nat; 1%nat; 2%nat; 3%nat];
            joined_clip := seq 10 310 ++ seq 0 10; joined_chapters := 0%nat |},
         10),
        {| heap := [[0; 100; 200; 250; 300; 330; 340]; [0; 50; 100]; [0; 30]; [0; 10]];
           stdout := [] |}).
Proof. vm_compute. reflexivity. Defined.

Lemma sample_overflow_no_menu_first_pass :
  first_pass (decoded 250) (ifo_of [[0; 100; 200]; [0; 50; 100]]) idx_no_menu
    empty_world
  = Ok (({| split_clips := [seq 0 200; seq 200 50];
            split_chapters := [0%nat; 1%nat];
            joined_clip := decoded 250; joined_chapters := 0%nat |},
         0),
        {| heap := [[0; 100; 200; 250; 300]; [0; 50; 100]]; stdout := [] |}).
Proof. vm_compute. reflexivity. Defined.

Lemma strict_mode_later_titles_collapsed_witness :
  exists t' w2,
    split_titles true (decoded 320) (ifo_of [[0; 100; 200]; [0; 50; 100]; [0; 30]])
      (idx_menu 10) empty_world = Ok (t', w2)
    /\ forall k, (1 <= k < 3)%nat ->
         exists l, split_chapters t' !! k = Some l /\ heap w2 !! l = Some [0; 1].
Proof.
  refine (strict_mode_later_titles_collapsed (decoded 320) _ _ _ _ _ _ 340
            sample_overflow_valid _ sample_overflow_first_pass _ _ _).
  - discriminate.
  - vm_compute. reflexivity.
  - vm_compute. reflexivity.
  - discriminate.
Defined.

Lemma strict_mode_ends_on_frame_count_witness :
  (exists t' w2,
     split_titles true (decoded 320) (ifo_of [[0; 100; 200]; [0; 50; 100]; [0; 30]])
       (idx_menu 10) empty_world = Ok (t', w2)
     /\ final_boundary t' w2 = Ok (320, w2))
  /\ split_titles true (decoded 250) (ifo_of [[0; 100; 200]; [0; 50; 100]])
       idx_no_menu empty_world = Raise VSError.
Proof.
  split.
  - refine (proj1 (strict_mode_ends_on_frame_count (decoded 320) _ _ _ _ _ _ 340
                     sample_overflow_valid _ sample_overflow_first_pass _ _) _).
    + discriminate.
    + vm_compute. reflexivity.
    + vm_compute. reflexivity.
    + discriminate.
  - refine (proj2 (proj2 (strict_mode_ends_on_frame_count (decoded 250) _ _ _ _ _ _ 300
                            sample_chapters_valid _
                            sample_overflow_no_menu_first_pass _ _)) _ _).
    + discriminate.
    + vm_compute. reflexivity.
    + vm_compute. reflexivity.
    + reflexivity.
    + cbn. lia.
Defined.

(** ** A disc without titles *)

Section NoTitles.

Context {Frame : Type}.
Implicit Types (clip : list Frame).

(** X25. when the extractor found no title, [split_titles] raises
    [IndexError] on a disc without menu segment; on a disc with a menu
    segment shorter than the decoded sequence it returns the menu segment
    as the only split sequence and as the joined sequence, with the
    boundaries [[0, menu]]; and it is refused when the menu segment is
    not shorter than the decoded sequence. *)
Theorem split_titles_no_titles safe_indices clip ifo_info idx_info menu w :
  chapters ifo_info = [] ->
  dvd_menu_length_of idx_info = Ok menu ->
  (menu = 0 -> clip <> [] ->
   split_titles safe_indices clip ifo_info idx_info w = Raise IndexError)
  /\ (menu <> 0 -> menu < Z.of_nat (length clip) ->
      split_titles safe_indices clip ifo_info idx_info w
      = Ok ({| split_clips := [take (Z.to_nat menu) clip];
               split_chapters := [length (heap w)];
               joined_clip := take (Z.to_nat menu) clip;
               joined_chapters := length (heap w) |},
            {| heap := heap w ++ [[0; menu]]; stdout := stdout w |}))
  /\ (Z.of_nat (length clip) <= menu ->
      split_titles safe_indices clip ifo_info idx_info w = Raise VSError).
Proof.
  intros Hchs Hmenu. pose proof (dvd_menu_length_nonneg _ _ Hmenu) as Hnn.
  assert (title_clips clip menu [] = []) as Htc.
  { apply length_zero_iff_nil. by rewrite length_title_clips. }
  assert (mapM alloc (chapters ifo_info) w = Ok ([], w)) as Halloc.
  { rewrite Hchs. done. }
  split; [|split].
  - intros -> Hclip. unfold split_titles, first_pass.
    apply mbind_raise.
    erewrite mbind_run by exact Halloc.
    erewrite mbind_run by (by rewrite Hmenu).
    erewrite mbind_run; cycle 1.
    { rewrite (split_chapters_clips_run clip [] []).
      - cbn [map Z.eqb]. rewrite Htc. reflexivity.
      - constructor.
      - constructor.
      - apply py_slice_from_nonempty; [done|]. destruct clip; [done|cbn; lia].
      - cbn [map]. rewrite Htc. constructor.
      - done. }
    cbn [fst snd]. apply mbind_raise. unfold lift, gen_joined_clip.
    by rewrite py_getitem_nil.
  - intros Hne Hfit. unfold split_titles, first_pass.
    assert ((menu =? 0) = false) as Hz by (by apply Z.eqb_neq).
    set (w1 := {| heap := heap w ++ [[0; menu]]; stdout := stdout w |}).
    erewrite mbind_run; cycle 1.
    { erewrite mbind_run by exact Halloc.
      erewrite mbind_run by (by rewrite Hmenu).
      erewrite mbind_run; cycle 1.
      { rewrite (split_chapters_clips_run clip [] []).
        - cbn [map]. rewrite Htc, Hz. reflexivity.
        - constructor.
        - constructor.
        - apply py_slice_from_nonempty; lia.
        - cbn [map]. rewrite Htc. constructor.
        - intros _. apply py_slice_upto_nonempty; lia. }
      cbn [fst snd app].
      erewrite mbind_run by (by rewrite gen_joined_clip_spec).
      erewrite mbind_run; cycle 1.
      { apply (gen_joined_chapts_spec (length (heap w)) [] [] [0; menu] w1);
          [by apply list_lookup_middle|done|apply not_elem_of_nil|constructor]. }
      reflexivity. }
    cbn [fst snd foldl heap stdout w1].
    rewrite list_insert_id by (by apply list_lookup_middle).
    rewrite py_slice_upto by done. cbn [concat]. rewrite app_nil_r.
    erewrite mbind_run; cycle 1.
    { unfold final_boundary.
      erewrite mbind_run by (apply deref_run; by apply list_lookup_middle).
      by rewrite py_getitem_last0. }
    change (last0 [0; menu]) with menu.
    by destruct (Z.ltb_spec (Z.of_nat (length clip)) menu) as [?|_]; [lia|].
  - intros Hge. unfold split_titles, first_pass.
    apply mbind_raise.
    erewrite mbind_run by exact Halloc.
    erewrite mbind_run by (by rewrite Hmenu).
    apply mbind_raise.
    rewrite (split_chapters_clips_spec clip [] []) by constructor.
    destruct (decide _) as [H|]; [exfalso|done].
    apply Forall_cons in H as [H _].
    apply py_slice_from_nonempty in H; [lia|done].
Qed.

End NoTitles.

Lemma split_titles_no_titles_witness :
  split_titles false (decoded 250) (ifo_of []) idx_no_menu empty_world
  = Raise IndexError
  /\ split_titles false (decoded 10) (ifo_of []) (idx_menu 10) empty_world
     = Raise VSError.
Proof.
  split.
  - refine (proj1 (split_titles_no_titles false (decoded 250) (ifo_of [])
                     idx_no_menu 0 empty_world _ _) _ _);
      [reflexivity..|discriminate].
  - refine (proj2 (proj2 (split_titles_no_titles false (decoded 10) (ifo_of [])
                            (idx_menu 10) 10 empty_world _ _)) _);
      [reflexivity|reflexivity|cbn; lia].
Defined.
